(** * LIFESIM component layer: a shallow embedding of [core/component.py]

    The development follows the three classes the component layer is built
    from.  [Component] and [ComponentManager] are embedded from
    [core/component.py]; the event bus they talk to ([core/event_bus.py]) is
    embedded from its written contract.

    Python objects live in a heap indexed by object identity, classes are
    identified by the identity of the class object, dictionaries that are
    iterated keep their insertion order, and every method call that the
    properties below speak about leaves an entry in a call log.  The
    operations only ever produce identities of allocated objects; a call
    through an identity that names no object does nothing. *)

From Stdlib Require Import ZArith PrimFloat.
From stdpp Require Import gmap strings list sorting.

#[local] Set Warnings "-register-all".
#[local] Open Scope string_scope.
#[local] Open Scope Z_scope.
#[local] Open Scope list_scope.

(** ** Values *)

(** [Any]: the JSON-like values that payloads and serialized states hold. *)
Inductive Value : Type :=
| VNone
| VBool (b : bool)
| VInt (z : Z)
| VFloat (f : float)
| VStr (s : string)
| VList (l : list Value)
| VDict (d : list (string * Value)).

(** A raised exception, identified by its message. *)
Inductive Exn : Type :=
| Raised (msg : string).

(** Identity of a class object ([id(cls)]); two classes are the same
    dictionary key exactly when they are the same object. *)
Abbreviation ClassId := nat.

(** Identity of an instance: its index in the heap. *)
Abbreviation ObjId := nat.

(** ** Event *)

(** Modelled from the spec: the [Event] value of [core/event_bus.py], which
    is not part of the visible sources.  Fields as in the data model: type,
    source, target (an agent id or the broadcast sentinel), payload,
    priority (lower is more urgent) and the logical time of emission. *)
Record Event : Type := mkEvent {
  type : string;
  source : string;
  target : string;
  data : gmap string Value;
  priority : Z;
  timestamp : Z
}.

(** The broadcast sentinel and the default priority of an event. *)
Definition BROADCAST : string := "all".
Definition DEFAULT_PRIORITY : Z := 5.

(** ** Component instances and classes *)

(** The fields [Component.__init__] creates, plus the attributes a concrete
    component keeps for itself. *)
Record Instance : Type := mkInstance {
  inst_class : ClassId;
  agent_id : string;
  agent : option ObjId;
  subscribed_events : list string;
  attrs : gmap string Value
}.

(** One [self.emit_event(...)] call made by a method body; an argument left
    out is [None] and takes the default of the signature. *)
Record EmitCall : Type := mkEmitCall {
  emit_type : string;
  emit_data : option (gmap string Value);
  emit_priority : option Z;
  emit_target : option string
}.

(** What running the body of a concrete method does: the attributes it
    leaves behind, the events it emitted on the way, and the exception it
    ended with, if any.  Components act on the rest of the simulation
    through the bus only: a body writes the attributes of its own instance
    and calls [emit_event]. *)
Record MethodResult : Type := mkMethodResult {
  new_attrs : gmap string Value;
  emitted : list EmitCall;
  raised : option Exn
}.

(** What the body of a concrete constructor does after
    [Component.__init__]: the attributes it sets, the [self.subscribe(...)]
    and the [self.emit_event(...)] calls it makes with the bus it was
    handed, and the exception it ends with, if any; what it did before
    raising stays done.  The driver in [debug_repro.py] adds components and
    pumps the bus without ever subscribing them from outside: components
    subscribe themselves when they are constructed. *)
Record InitResult : Type := mkInitResult {
  init_attrs : gmap string Value;
  init_subscribe : list (list string);
  init_emit : list EmitCall;
  init_raised : option Exn
}.

(** One step of the body of a concrete [tick]: an [emit_event] call, or an
    [add_component] call on the manager that owns the component, which the
    component reaches through the agent reference injected into it (the
    driver in [debug_repro.py] adds components through the agent). *)
Inductive TickStep : Type :=
| TickEmit (c : EmitCall)
| TickAdd (component_class : ClassId) (args : list Value).

(** What running the body of a concrete [tick] does: the attributes it
    leaves behind, its steps in order, and the exception it ends with. *)
Record TickResult : Type := mkTickResult {
  tick_attrs : gmap string Value;
  tick_steps : list TickStep;
  tick_raised : option Exn
}.

(** A concrete component class.  [cls_mro] lists the classes it inherits
    from; [cls_init] receives the agent id and the extra constructor
    arguments; it is [inl] when the call fails before the body of the
    constructor runs (arguments that do not fit the signature). *)
Record ClassDef : Type := mkClassDef {
  cls_name : string;
  cls_mro : list ClassId;
  cls_init : string → list Value → Exn + InitResult;
  cls_on_event : Instance → Event → MethodResult;
  cls_tick : Instance → float → TickResult;
  cls_serialize : Instance → Value;
  cls_deserialize : Instance → Value → MethodResult
}.

(** ** The world: heap, bus and call log *)

(** An entry of the call log. *)
Inductive Call : Type :=
| CallOnEvent (c : ObjId) (e : Event)
| CallTick (c : ObjId) (delta_time : float)
| CallDeserialize (c : ObjId) (v : Value)
| CallEmit (e : Event).

(** Modelled from the spec: the state of the [EventBus] of
    [core/event_bus.py]: the subscription table (per event type, the
    handlers in registration order; a handler is the bound [on_event] of the
    instance it names), the logical clock, the pending queue, and the
    reported handler failures. *)
Record EventBus : Type := mkEventBus {
  subscriptions : gmap string (list ObjId);
  current_time : Z;
  pending : list Event;
  reports : list (ObjId * Exn)
}.

Record World : Type := mkWorld {
  heap : list Instance;
  bus : EventBus;
  trace : list Call
}.

Definition with_bus (b : EventBus) (w : World) : World :=
  {| heap := heap w; bus := b; trace := trace w |}.

Definition with_heap (h : list Instance) (w : World) : World :=
  {| heap := h; bus := bus w; trace := trace w |}.

Definition log (c : Call) (w : World) : World :=
  {| heap := heap w; bus := bus w; trace := trace w ++ [c] |}.

(** The agent a handler belongs to: the [agent_id] of the instance whose
    bound method it is. *)
Definition owner (w : World) (h : ObjId) : option string :=
  agent_id <$> heap w !! h.

(** The on_event calls, the emissions, the tick calls and the deserialize
    calls of a call log, each in order. *)
Definition on_event_calls (t : list Call) : list (ObjId * Event) :=
  omap (λ c, match c with CallOnEvent h e => Some (h, e) | _ => None end) t.

Definition emit_calls (t : list Call) : list Event :=
  omap (λ c, match c with CallEmit e => Some e | _ => None end) t.


Definition deserialize_calls (t : list Call) : list (ObjId * Value) :=
  omap (λ c, match c with CallDeserialize h v => Some (h, v) | _ => None end) t.

(** A python [for x in l: body(x)]: the first exception ends the loop and
    reaches the caller; what was done before it stays done. *)
Fixpoint for_each {A : Type} (body : A → World → option Exn * World)
    (l : list A) (w : World) : option Exn * World :=
  match l with
  | [] => (None, w)
  | x :: l' =>
      match body x w with
      | (Some ex, w') => (Some ex, w')
      | (None, w') => for_each body l' w'
      end
  end.

(** ** EventBus *)

Module EventBus.

(** Modelled from the spec: [EventBus.get_current_time] of
    [core/event_bus.py]: the clock as of the last completed tick. *)
Definition get_current_time (w : World) : Z := current_time (bus w).

(** Modelled from the spec: the subscription table read at one event type:
    the handlers registered for it, in registration order. *)
Definition handlers_for (b : EventBus) (ty : string) : list ObjId :=
  default [] (subscriptions b !! ty).

(** Modelled from the spec: one registration, appended behind the handlers
    the type already has. *)
Definition register (h : ObjId) (ty : string)
    (tbl : gmap string (list ObjId)) : gmap string (list ObjId) :=
  <[ty := default [] (tbl !! ty) ++ [h]]> tbl.

(** Modelled from the spec: [EventBus.subscribe(event_types, handler)] of
    [core/event_bus.py]: [event_types] is taken as a set, and the handler
    is appended to the registrations of each of its types. *)
Definition subscribe (event_types : list string) (h : ObjId) (w : World) : World :=
  let b := bus w in
  with_bus {| subscriptions := foldr (register h) (subscriptions b) (remove_dups event_types);
              current_time := current_time b;
              pending := pending b;
              reports := reports b |} w.

(** Modelled from the spec: [EventBus.emit(event)] of [core/event_bus.py]:
    the event joins the pending queue and nothing is delivered. *)
Definition emit (e : Event) (w : World) : World :=
  let b := bus w in
  log (CallEmit e)
    (with_bus {| subscriptions := subscriptions b;
                 current_time := current_time b;
                 pending := pending b ++ [e];
                 reports := reports b |} w).

(** Modelled from the spec: stable insertion by priority: [e] was emitted
    before everything in [l], so it goes in front of the first event that
    is not more urgent. *)
Fixpoint insert_by_priority (e : Event) (l : list Event) : list Event :=
  match l with
  | [] => [e]
  | e' :: l' =>
      if priority e <=? priority e' then e :: e' :: l'
      else e' :: insert_by_priority e l'
  end.

(** Modelled from the spec: the order in which one tick delivers a batch:
    ascending priority value, emission order among equals. *)
Fixpoint delivery_order (batch : list Event) : list Event :=
  match batch with
  | [] => []
  | e :: batch' => insert_by_priority e (delivery_order batch')
  end.

(** Modelled from the spec: the addressing test of a delivery: the target
    is the broadcast sentinel, or it is the agent that owns the handler. *)
Definition addressed_to (w : World) (e : Event) (h : ObjId) : bool :=
  bool_decide (target e = BROADCAST) || bool_decide (owner w h = Some (target e)).

(** Modelled from the spec: the handlers one event is delivered to: those
    subscribed to its type that it is addressed to, in registration
    order. *)
Definition recipients (w : World) (e : Event) : list ObjId :=
  filter (λ h, addressed_to w e h = true) (handlers_for (bus w) (type e)).

(** Modelled from the spec: the failure of a handler is reported. *)
Definition report (h : ObjId) (ex : Exn) (w : World) : World :=
  let b := bus w in
  with_bus {| subscriptions := subscriptions b;
              current_time := current_time b;
              pending := pending b;
              reports := reports b ++ [(h, ex)] |} w.

Section Delivery.

(** Calling a registered handler with an event: for a component, its bound
    [on_event]. *)
Context (call : ObjId → Event → World → option Exn * World).

(** Modelled from the spec: delivery to one handler; a failing handler is
    reported and delivery goes on. *)
Definition deliver_to (e : Event) (w : World) (h : ObjId) : World :=
  match call h e w with
  | (None, w') => w'
  | (Some ex, w') => report h ex w'
  end.

(** Modelled from the spec: delivery of one event to its recipients. *)
Definition deliver (w : World) (e : Event) : World :=
  foldl (deliver_to e) w (recipients w e).

(** Modelled from the spec: [EventBus.tick()] of [core/event_bus.py]: the
    clock advances by one step, the pending queue is drained and its events
    are delivered in [delivery_order]; what handlers emit meanwhile lands in
    the fresh queue, for the next tick. *)
Definition tick (w : World) : World :=
  let b := bus w in
  foldl deliver
    (with_bus {| subscriptions := subscriptions b;
                 current_time := current_time b + 1;
                 pending := [];
                 reports := reports b |} w)
    (delivery_order (pending b)).

End Delivery.

End EventBus.

(** ** Component *)

Module Component.

(** [Component.__init__(agent_id, event_bus)]: the agent reference is not
    set yet and nothing is subscribed.  The bus reference is the one bus of
    the world. *)
Definition __init__ (cls : ClassId) (agent_id : string) : Instance :=
  {| inst_class := cls;
     agent_id := agent_id;
     agent := None;
     subscribed_events := [];
     attrs := ∅ |}.

Definition set_attrs (a : gmap string Value) (i : Instance) : Instance :=
  {| inst_class := inst_class i;
     agent_id := agent_id i;
     agent := agent i;
     subscribed_events := subscribed_events i;
     attrs := a |}.

Definition set_agent (a : option ObjId) (i : Instance) : Instance :=
  {| inst_class := inst_class i;
     agent_id := agent_id i;
     agent := a;
     subscribed_events := subscribed_events i;
     attrs := attrs i |}.

Definition extend_subscribed (event_types : list string) (i : Instance) : Instance :=
  {| inst_class := inst_class i;
     agent_id := agent_id i;
     agent := agent i;
     subscribed_events := subscribed_events i ++ event_types;
     attrs := attrs i |}.

(** [Component.subscribe(event_types)]: registers the bound [on_event] with
    the bus, then records the types on the instance. *)
Definition subscribe (self : ObjId) (event_types : list string) (w : World) : World :=
  let w1 := EventBus.subscribe event_types self w in
  with_heap (alter (extend_subscribed event_types) self (heap w1)) w1.

(** [Component.emit_event(event_type, data=None, priority=5, target="all")],
    called without extra keyword arguments. *)
Definition emit_event (self : ObjId) (event_type : string)
    (data : option (gmap string Value)) (priority : option Z)
    (target : option string) (w : World) : World :=
  match heap w !! self with
  | Some inst =>
      let data := match data with None => ∅ | Some d => d end in
      let event :=
        {| type := event_type;
           source := agent_id inst;
           target := default BROADCAST target;
           data := data;
           priority := default DEFAULT_PRIORITY priority;
           timestamp := EventBus.get_current_time w |} in
      EventBus.emit event w
  | None => w
  end.

(** The effects of a method body on the world: the attributes it wrote,
    its [emit_event] calls in order, and the exception it ends with. *)
Definition perform (self : ObjId) (r : MethodResult) (w : World) : option Exn * World :=
  let w1 := with_heap (alter (set_attrs (new_attrs r)) self (heap w)) w in
  (raised r,
   foldl (λ w c, emit_event self (emit_type c) (emit_data c) (emit_priority c) (emit_target c) w)
     w1 (emitted r)).

(** The body of the base [Component.tick]: [pass]. *)
Definition default_tick (self : Instance) (delta_time : float) : TickResult :=
  {| tick_attrs := attrs self; tick_steps := []; tick_raised := None |}.

Section Methods.

Context (classes : ClassId → ClassDef).

(** [Component.get_component_name()]: the name of the instance's class. *)
Definition get_component_name (self : Instance) : string :=
  cls_name (classes (inst_class self)).

(** [component.on_event(event)], dispatched to the concrete class. *)
Definition on_event (self : ObjId) (event : Event) (w : World) : option Exn * World :=
  let w := log (CallOnEvent self event) w in
  match heap w !! self with
  | Some inst => perform self (cls_on_event (classes (inst_class inst)) inst event) w
  | None => (None, w)
  end.

(** [component.serialize()], dispatched to the concrete class. *)
Definition serialize (self : ObjId) (w : World) : Value :=
  match heap w !! self with
  | Some inst => cls_serialize (classes (inst_class inst)) inst
  | None => VNone
  end.

(** [component.deserialize(data)], dispatched to the concrete class. *)
Definition deserialize (self : ObjId) (v : Value) (w : World) : option Exn * World :=
  let w := log (CallDeserialize self v) w in
  match heap w !! self with
  | Some inst => perform self (cls_deserialize (classes (inst_class inst)) inst v) w
  | None => (None, w)
  end.

(** [component_class(agent_id, event_bus, *args)]: a new instance is
    allocated, [Component.__init__] and the body of the concrete
    constructor run, and the [subscribe] and [emit_event] calls of the body
    reach the bus (subscribing and emitting act on different parts of the
    bus, so their mutual order does not show).  When the body raises, the
    caller gets the exception and no instance, but what the body did stays:
    the bus keeps the handlers it registered, and with them the
    instance. *)
Definition new (component_class : ClassId) (agent_id : string)
    (args : list Value) (w : World) : (Exn + ObjId) * World :=
  match cls_init (classes component_class) agent_id args with
  | inl ex => (inl ex, w)
  | inr r =>
      let self := length (heap w) in
      let inst := set_attrs (init_attrs r) (__init__ component_class agent_id) in
      let w1 :=
        foldl (λ w event_types, subscribe self event_types w)
          (with_heap (heap w ++ [inst]) w) (init_subscribe r) in
      let w2 :=
        foldl (λ w c, emit_event self (emit_type c) (emit_data c)
                        (emit_priority c) (emit_target c) w)
          w1 (init_emit r) in
      (match init_raised r with Some ex => inl ex | None => inr self end, w2)
  end.

(** [issubclass(sub, base)] and [isinstance(obj, base)]. *)
Definition issubclass (sub base : ClassId) : bool :=
  bool_decide (sub = base) || bool_decide (base ∈ cls_mro (classes sub)).

Definition isinstance (w : World) (obj : ObjId) (base : ClassId) : bool :=
  match heap w !! obj with
  | Some inst => issubclass (inst_class inst) base
  | None => false
  end.

End Methods.

End Component.

(** ** Insertion-ordered dictionaries *)

(** [d[k] = v] on a python dict: an existing key keeps its position and
    takes the new value, a new key goes to the end. *)
Fixpoint dict_set {K V : Type} `{EqDecision K} (k : K) (v : V)
    (d : list (K * V)) : list (K * V) :=
  match d with
  | [] => [(k, v)]
  | (k', v') :: d' =>
      if decide (k' = k) then (k, v) :: d' else (k', v') :: dict_set k v d'
  end.

(** [d.get(k)]. *)
Fixpoint dict_get {K V : Type} `{EqDecision K} (k : K) (d : list (K * V)) : option V :=
  match d with
  | [] => None
  | (k', v') :: d' => if decide (k' = k) then Some v' else dict_get k d'
  end.

(** [k in d], [d.values()] and [d.keys()]. *)
Definition dict_mem {K V : Type} `{EqDecision K} (k : K) (d : list (K * V)) : bool :=
  bool_decide (k ∈ d.*1).

Definition dict_values {K V : Type} (d : list (K * V)) : list V := d.*2.

Definition dict_keys {K V : Type} (d : list (K * V)) : list K := d.*1.

(** ** ComponentManager *)

Module ComponentManager.

(** The manager of one agent.  Its bus reference is the one bus of the
    world; [_components] starts empty. *)
Record t : Type := mk {
  mgr_agent_id : string;
  mgr_agent : option ObjId;
  _components : list (ClassId * ObjId)
}.

(** [ComponentManager.__init__(agent_id, event_bus, agent=None)]. *)
Definition __init__ (agent_id : string) (agent : option ObjId) : t :=
  {| mgr_agent_id := agent_id; mgr_agent := agent; _components := [] |}.

(** [get_component(component_class)]: [self._components.get(...)]. *)
Definition get_component (component_class : ClassId) (self : t) : option ObjId :=
  dict_get component_class (_components self).

(** [has_component(component_class)]: [component_class in self._components]. *)
Definition has_component (component_class : ClassId) (self : t) : bool :=
  dict_mem component_class (_components self).

(** [get_all_components()]: [list(self._components.values())]. *)
Definition get_all_components (self : t) : list ObjId :=
  dict_values (_components self).

Section Methods.

Context (classes : ClassId → ClassDef).

(** [add_component(component_class, *args)]: construct, inject the agent
    reference, store under the class, return the instance. *)
Definition add_component (component_class : ClassId) (args : list Value)
    (self : t) (w : World) : (Exn + ObjId) * t * World :=
  match Component.new classes component_class (mgr_agent_id self) args w with
  | (inl ex, w') => (inl ex, self, w')
  | (inr component, w1) =>
      let w2 := with_heap (alter (Component.set_agent (mgr_agent self)) component (heap w1)) w1 in
      (inr component,
       {| mgr_agent_id := mgr_agent_id self;
          mgr_agent := mgr_agent self;
          _components := dict_set component_class component (_components self) |},
       w2)
  end.

(** The steps of the body of a [tick], in order.  An [add_component] that
    raises ends the body with its exception. *)
Fixpoint run_steps (component : ObjId) (steps : list TickStep)
    (self : t) (w : World) : option Exn * t * World :=
  match steps with
  | [] => (None, self, w)
  | TickEmit c :: steps' =>
      run_steps component steps' self
        (Component.emit_event component (emit_type c) (emit_data c)
           (emit_priority c) (emit_target c) w)
  | TickAdd component_class args :: steps' =>
      match add_component component_class args self w with
      | (inl ex, m, w') => (Some ex, m, w')
      | (inr _, m, w') => run_steps component steps' m w'
      end
  end.

(** [component.tick(delta_time)] for a component of the manager [self],
    dispatched to the concrete class. *)
Definition tick_component (component : ObjId) (delta_time : float)
    (self : t) (w : World) : option Exn * t * World :=
  let w := log (CallTick component delta_time) w in
  match heap w !! component with
  | Some inst =>
      let r := cls_tick (classes (inst_class inst)) inst delta_time in
      match run_steps component (tick_steps r) self
              (with_heap (alter (Component.set_attrs (tick_attrs r)) component (heap w)) w) with
      | (Some ex, m, w') => (Some ex, m, w')
      | (None, m, w') => (tick_raised r, m, w')
      end
  | None => (None, self, w)
  end.

(** The loop [for component in self._components.values()] of [tick], on the
    live view of the dictionary as python iterates it: every step first
    compares the size of the dictionary with the size [size] it had when
    the loop began and raises [RuntimeError] when it differs; otherwise it
    takes the value now found at position [i], or ends when there is
    none.  [remaining] counts the positions that are left. *)
Fixpoint tick_from (remaining i size : nat) (delta_time : float)
    (self : t) (w : World) : option Exn * t * World :=
  if decide (length (_components self) = size) then
    match remaining with
    | O => (None, self, w)
    | S remaining' =>
        match dict_values (_components self) !! i with
        | Some component =>
            match tick_component component delta_time self w with
            | (Some ex, m, w') => (Some ex, m, w')
            | (None, m, w') => tick_from remaining' (S i) size delta_time m w'
            end
        | None => (None, self, w)
        end
    end
  else (Some (Raised "RuntimeError: dictionary changed size during iteration"), self, w).

(** [tick(delta_time)]: every component in iteration order. *)
Definition tick (delta_time : float) (self : t) (w : World) : option Exn * t * World :=
  tick_from (length (_components self)) 0 (length (_components self))
    delta_time self w.

(** [serialize()]: component name to serialized state. *)
Definition serialize (self : t) (w : World) : gmap string Value :=
  foldl (λ data component,
           match heap w !! component with
           | Some inst =>
               <[Component.get_component_name classes inst :=
                   Component.serialize classes component w]> data
           | None => data
           end)
    ∅ (dict_values (_components self)).

(** One round of the loop of [deserialize]. *)
Definition deserialize_one (data : gmap string Value) (component : ObjId)
    (w : World) : option Exn * World :=
  match heap w !! component with
  | Some inst =>
      let name := Component.get_component_name classes inst in
      match data !! name with
      | Some v => Component.deserialize classes component v w
      | None => (None, w)
      end
  | None => (None, w)
  end.

(** [deserialize(data)]: every component whose name is a key of [data]. *)
Definition deserialize (data : gmap string Value) (self : t) (w : World) : option Exn * World :=
  for_each (deserialize_one data) (dict_values (_components self)) w.

End Methods.

End ComponentManager.

(** ** Observing a run *)

(** What was logged between an earlier world and a later one. *)
Definition since (w w' : World) : list Call :=
  drop (length (trace w)) (trace w').

(** [w'] comes after [w] by steps that leave the subscription table, the
    clock and the owner of every handler alone, that only add the logged
    emissions to the pending queue, and that logged [t]. *)
Record extends (w w' : World) (t : list Call) : Prop := mk_extends {
  ext_subscriptions : subscriptions (bus w') = subscriptions (bus w);
  ext_time : current_time (bus w') = current_time (bus w);
  ext_owner : ∀ h, owner w' h = owner w h;
  ext_class : ∀ h, inst_class <$> heap w' !! h = inst_class <$> heap w !! h;
  ext_pending : pending (bus w') = pending (bus w) ++ emit_calls t;
  ext_trace : trace w' = trace w ++ t
}.

(** [w'] comes after [w] by handler calls only: the on_event calls made are
    [ds], in this order, and everything emitted meanwhile carries the
    clock of [w] as its timestamp. *)
Definition delivered (w w' : World) (ds : list (ObjId * Event)) : Prop :=
  ∃ t, extends w w' t ∧ on_event_calls t = ds ∧
       Forall (λ e, timestamp e = current_time (bus w)) (emit_calls t).

(** What the bus may rely on when it calls a handler: the call is logged,
    and all it does to the bus is emit events stamped with the clock. *)
Definition handler_contract (call : ObjId → Event → World → option Exn * World) : Prop :=
  ∀ h e w, ∃ es,
    extends w (call h e w).2 (CallOnEvent h e :: (CallEmit <$> es)) ∧
    Forall (λ e', timestamp e' = current_time (bus w)) es.

(** [w'] comes after [w] by steps of the instance [o] on itself: it may
    have registered its handler some more times, behind the registrations
    that were there, and changed its own fields other than its class and
    its agent id, and emitted events [es].  Clock and all other instances
    are as they were. *)
Record registers (o : ObjId) (w w' : World) (es : list Event) : Prop := mk_registers {
  reg_handlers : ∀ ty, ∃ k,
    EventBus.handlers_for (bus w') ty
    = EventBus.handlers_for (bus w) ty ++ replicate k o;
  reg_time : current_time (bus w') = current_time (bus w);
  reg_pending : pending (bus w') = pending (bus w) ++ es;
  reg_trace : trace w' = trace w ++ (CallEmit <$> es);
  reg_length : length (heap w') = length (heap w);
  reg_others : ∀ h, h ≠ o → heap w' !! h = heap w !! h;
  reg_class : inst_class <$> heap w' !! o = inst_class <$> heap w !! o;
  reg_owner : owner w' o = owner w o
}.

(** The deliveries one tick owes for a batch: event by event in delivery
    order, and for each event its recipients in registration order. *)
Definition deliveries (w : World) (batch : list Event) : list (ObjId * Event) :=
  e ← EventBus.delivery_order batch; (λ h, (h, e)) <$> EventBus.recipients w e.

(** A driver that makes one [add_component] call after the other on the
    same manager, going on after a construction error; it collects what
    each call returned. *)
Definition add_components (classes : ClassId → ClassDef)
    (calls : list (ClassId * list Value)) (self : ComponentManager.t) (w : World)
    : list (Exn + ObjId) * ComponentManager.t * World :=
  foldl (λ '(rs, m, w) '(component_class, args),
           let '(r, m', w') := ComponentManager.add_component classes component_class args m w in
           (rs ++ [r], m', w'))
    ([], self, w) calls.

(** The instance that the most recent successful [add_component(T)] of a
    run returned, if there was one. *)
Definition latest (T : ClassId) (calls : list (ClassId * list Value))
    (rs : list (Exn + ObjId)) : option ObjId :=
  last (omap (λ '((component_class, _), r),
                match r with
                | inr o => if decide (component_class = T) then Some o else None
                | inl _ => None
                end)
          (zip calls rs)).

(** A registry as [add_component] builds it: one entry per class, and
    each entry holds a live instance of exactly the class it is filed
    under. *)
Definition registry_ok (m : ComponentManager.t) (w : World) : Prop :=
  NoDup (dict_keys (ComponentManager._components m)) ∧
  ∀ T o, (T, o) ∈ ComponentManager._components m →
         inst_class <$> heap w !! o = Some T.

(** The deserialize call [ComponentManager.deserialize(data)] owes to a
    component, by the state of the component when the call is entered: one
    call with [data[name]] when its name is a key of [data], none
    otherwise. *)
Definition owed_to (classes : ClassId → ClassDef) (w : World)
    (data : gmap string Value) (c : ObjId) : option (ObjId * Value) :=
  inst ← heap w !! c;
  v ← data !! Component.get_component_name classes inst;
  Some (c, v).

(** The deserialize calls owed to the components, in iteration order. *)
Definition owed_deserialize (classes : ClassId → ClassDef) (w : World)
    (data : gmap string Value) (components : list ObjId) : list (ObjId * Value) :=
  omap (owed_to classes w data) components.

(** What holds of the world [wk] throughout the loop of a
    [deserialize(data)] entered in [w]: no instance appeared or changed
    class, and an instance whose name is not a key of [data] is as it
    was. *)
Definition during (classes : ClassId → ClassDef) (w : World)
    (data : gmap string Value) (wk : World) : Prop :=
  length (heap wk) = length (heap w)
  ∧ (∀ c, inst_class <$> heap wk !! c = inst_class <$> heap w !! c)
  ∧ (∀ c inst, heap w !! c = Some inst →
               data !! Component.get_component_name classes inst = None →
               heap wk !! c = Some inst).




(** One component's [tick] as a round of a loop over the components of the
    manager [m]: the exception it ends with and the world it leaves. *)
Definition ticked (classes : ClassId → ClassDef) (delta_time : float)
    (m : ComponentManager.t) (c : ObjId) (w : World) : option Exn * World :=
  ((ComponentManager.tick_component classes c delta_time m w).1.1,
   (ComponentManager.tick_component classes c delta_time m w).2).

(** An instance as [add_component] of a manager leaves it: of the class
    asked for, with the agent id and the agent reference of the manager. *)
Definition bound_to (aid : string) (a : option ObjId) (T : ClassId)
    (inst : Instance) : Prop :=
  inst_class inst = T ∧ agent_id inst = aid ∧ agent inst = a.

(** The bus and the components agree on who listens to what: a handler is
    registered for a type exactly when its instance recorded the type in
    [subscribed_events]. *)
Definition subscriptions_recorded (w : World) : Prop :=
  ∀ c ty, c ∈ EventBus.handlers_for (bus w) ty ↔
          ∃ inst, heap w !! c = Some inst ∧ ty ∈ subscribed_events inst.

(** What [ComponentManager.serialize] writes under the key [n] when the
    loop reaches the component [c]: its serialized state if [n] is its
    name, nothing otherwise. *)
Definition serialized_as (classes : ClassId → ClassDef) (w : World)
    (n : string) (c : ObjId) : option Value :=
  inst ← heap w !! c;
  if decide (Component.get_component_name classes inst = n)
  then Some (Component.serialize classes c w) else None.


(** The names of a list of components, in order. *)
Definition names_of (classes : ClassId → ClassDef) (w : World)
    (components : list ObjId) : list string :=
  omap (λ c, Component.get_component_name classes <$> heap w !! c) components.

(** ** The driver of [debug_repro.py] *)

(** The loop of [test_eat_action]:
    [while (queue.is_busy() or total_ticks < 40) and total_ticks < 100]
    with the body [bus.tick(); agent.tick(1.0); total_ticks += 1] and the
    progress report of every tenth round.  The [Agent] and the
    [ActionQueue] are not part of the visible sources: [is_busy] stands for
    the call [queue.is_busy()], which python makes first at every test of
    the condition, and [round] for the body of the round that starts with
    the given value of [total_ticks]; both act on the simulation and both
    may raise, which ends the loop.  The result is the exception, if any,
    the number of rounds that were completed and the simulation as it was
    left.  [fuel] bounds the number of tests of the condition the model
    makes. *)
Fixpoint pump {St : Type} (is_busy : St → (Exn + bool) * St)
    (round : nat → St → option Exn * St)
    (fuel : nat) (total_ticks : nat) (s : St) : option Exn * nat * St :=
  match fuel with
  | O => (None, total_ticks, s)
  | S fuel' =>
      match is_busy s with
      | (inl ex, s1) => (Some ex, total_ticks, s1)
      | (inr busy, s1) =>
          if (busy || (total_ticks <? 40)%nat) && (total_ticks <? 100)%nat
          then match round total_ticks s1 with
               | (Some ex, s2) => (Some ex, total_ticks, s2)
               | (None, s2) => pump is_busy round fuel' (S total_ticks) s2
               end
          else (None, total_ticks, s1)
      end
  end.

(** ** A small simulation to run the model on *)

Definition quiet (self : Instance) : MethodResult :=
  {| new_attrs := attrs self; emitted := []; raised := None |}.

(** Subscribes to "ping" when constructed and answers every event with a
    "pong" emitted with the default arguments. *)
Definition Needs : ClassDef :=
  {| cls_name := "Needs";
     cls_mro := [];
     cls_init := λ _ _, inr {| init_attrs := {["hunger" := VInt 100]};
                               init_subscribe := [["ping"]];
                               init_emit := [];
                               init_raised := None |};
     cls_on_event := λ self _,
       {| new_attrs := attrs self;
          emitted := [mkEmitCall "pong" None None None];
          raised := None |};
     cls_tick := Component.default_tick;
     cls_serialize := λ self, default VNone (attrs self !! "hunger");
     cls_deserialize := λ self v,
       {| new_attrs := <["hunger" := v]> (attrs self); emitted := []; raised := None |} |}.

(** Subscribes to nothing and remembers the last time step it was given. *)
Definition Body : ClassDef :=
  {| cls_name := "Body";
     cls_mro := [];
     cls_init := λ _ _, inr {| init_attrs := {["energy" := VInt 1]};
                               init_subscribe := [];
                               init_emit := [];
                               init_raised := None |};
     cls_on_event := λ self _, quiet self;
     cls_tick := λ self delta_time,
       {| tick_attrs := <["last_step" := VFloat delta_time]> (attrs self);
          tick_steps := [];
          tick_raised := None |};
     cls_serialize := λ self, default VNone (attrs self !! "energy");
     cls_deserialize := λ self v,
       {| new_attrs := <["energy" := v]> (attrs self); emitted := []; raised := None |} |}.

(** Needs its one constructor argument, and its tick always fails. *)
Definition Flaky : ClassDef :=
  {| cls_name := "Flaky";
     cls_mro := [];
     cls_init := λ _ args,
       match args with
       | [_] => inr {| init_attrs := ∅; init_subscribe := [];
                       init_emit := []; init_raised := None |}
       | _ => inl (Raised "TypeError")
       end;
     cls_on_event := λ self _, quiet self;
     cls_tick := λ self _,
       {| tick_attrs := attrs self;
          tick_steps := [];
          tick_raised := Some (Raised "tick failed") |};
     cls_serialize := λ _, VNone;
     cls_deserialize := λ self _, quiet self |}.

(** A subclass of [Needs] (class 0) that changes nothing. *)
Definition Hunger : ClassDef :=
  {| cls_name := "Hunger";
     cls_mro := [0%nat];
     cls_init := cls_init Needs;
     cls_on_event := cls_on_event Needs;
     cls_tick := cls_tick Needs;
     cls_serialize := cls_serialize Needs;
     cls_deserialize := cls_deserialize Needs |}.

(** Its tick emits "spawning" and then adds a [Body] (class 1) to the
    manager that owns it. *)
Definition Spawner : ClassDef :=
  {| cls_name := "Spawner";
     cls_mro := [];
     cls_init := λ _ _, inr {| init_attrs := ∅; init_subscribe := [];
                               init_emit := []; init_raised := None |};
     cls_on_event := λ self _, quiet self;
     cls_tick := λ self _,
       {| tick_attrs := attrs self;
          tick_steps := [TickEmit (mkEmitCall "spawning" None None None);
                         TickAdd 1%nat []];
          tick_raised := None |};
     cls_serialize := λ _, VNone;
     cls_deserialize := λ self _, quiet self |}.

(** Its constructor subscribes to "ping", announces itself and then
    raises. *)
Definition Leaky : ClassDef :=
  {| cls_name := "Leaky";
     cls_mro := [];
     cls_init := λ _ _, inr {| init_attrs := ∅;
                               init_subscribe := [["ping"]];
                               init_emit := [mkEmitCall "created" None None None];
                               init_raised := Some (Raised "ValueError") |};
     cls_on_event := λ self _, quiet self;
     cls_tick := Component.default_tick;
     cls_serialize := λ _, VNone;
     cls_deserialize := λ self _, quiet self |}.

Definition demo_classes (c : ClassId) : ClassDef :=
  match c with
  | 0%nat => Needs
  | 1%nat => Body
  | 2%nat => Flaky
  | 4%nat => Spawner
  | 5%nat => Leaky
  | _ => Hunger
  end.

(** A fresh bus at time 0 and an empty heap. *)
Definition fresh_world : World :=
  {| heap := [];
     bus := {| subscriptions := ∅; current_time := 0; pending := []; reports := [] |};
     trace := [] |}.

Definition ping (prio : Z) (tgt : string) : Event :=
  {| type := "ping"; source := "driver"; target := tgt; data := ∅;
     priority := prio; timestamp := 0 |}.

(** Agent "agent_7" with a [Needs] and a [Body]. *)
Definition agent_7_world : ComponentManager.t * World :=
  let '(_, m, w) :=
    add_components demo_classes [(0%nat, []); (1%nat, [])]
      (ComponentManager.__init__ "agent_7" None) fresh_world in
  (m, w).

(** The same world with three pings waiting, of priority 1, 5 and 1. *)
Definition three_pings_world : World :=
  EventBus.emit (ping 1 "all")
    (EventBus.emit (ping 5 "agent_7")
       (EventBus.emit (ping 1 "agent_7") agent_7_world.2)).

(** The first component of "agent_7" also listens for "pong", and one
    broadcast ping is waiting. *)
Definition ping_pong_world : World :=
  EventBus.emit (ping 5 "all") (Component.subscribe 0%nat ["pong"] agent_7_world.2).

(** The pong that the handler of [Needs] emits during the first tick. *)
Definition pong : Event :=
  {| type := "pong"; source := "agent_7"; target := "all"; data := ∅;
     priority := 5; timestamp := 1 |}.

(** A second agent, "agent_8", joins with a [Needs] of its own; a ping for
    "agent_7" and a broadcast ping are waiting. *)
Definition two_agents_world : World :=
  let '(_, _, w) :=
    ComponentManager.add_component demo_classes 0%nat []
      (ComponentManager.__init__ "agent_8" None) agent_7_world.2 in
  EventBus.emit (ping 5 "all") (EventBus.emit (ping 5 "agent_7") w).

(** A manager for "agent_9" that only ever added [Hunger] (class 3), the
    subclass of [Needs] (class 0). *)
Definition hunger_run : list (Exn + ObjId) * ComponentManager.t * World :=
  add_components demo_classes [(3%nat, [])]
    (ComponentManager.__init__ "agent_9" None) fresh_world.

(** "agent_7" adds [Needs] a second time, replacing instance 0. *)
Definition replaced_run : (Exn + ObjId) * ComponentManager.t * World :=
  ComponentManager.add_component demo_classes 0%nat []
    agent_7_world.1 agent_7_world.2.



(** "agent_7" tries to add a [Leaky], whose constructor raises. *)
Definition leaky_run : (Exn + ObjId) * ComponentManager.t * World :=
  ComponentManager.add_component demo_classes 5%nat []
    agent_7_world.1 agent_7_world.2.


(** * Properties *)

(** ** Call logs *)

Lemma since_app (w w' : World) (t : list Call) :
  trace w' = trace w ++ t → since w w' = t.
Proof.
  intros Ht. unfold since. rewrite Ht. apply drop_app_length.
Qed.

Lemma emit_calls_app (t1 t2 : list Call) :
  emit_calls (t1 ++ t2) = emit_calls t1 ++ emit_calls t2.
Proof. apply omap_app. Qed.

Lemma on_event_calls_app (t1 t2 : list Call) :
  on_event_calls (t1 ++ t2) = on_event_calls t1 ++ on_event_calls t2.
Proof. apply omap_app. Qed.


Lemma deserialize_calls_app (t1 t2 : list Call) :
  deserialize_calls (t1 ++ t2) = deserialize_calls t1 ++ deserialize_calls t2.
Proof. apply omap_app. Qed.

Lemma emit_calls_emits (es : list Event) : emit_calls (CallEmit <$> es) = es.
Proof. induction es as [|e es IH]; [done|]. cbn. f_equal. exact IH. Qed.

Lemma on_event_calls_emits (es : list Event) : on_event_calls (CallEmit <$> es) = [].
Proof. induction es as [|e es IH]; [done|]. exact IH. Qed.


Lemma deserialize_calls_emits (es : list Event) : deserialize_calls (CallEmit <$> es) = [].
Proof. induction es as [|e es IH]; [done|]. exact IH. Qed.

(** ** Framing: what a step leaves alone *)

Lemma extends_refl (w : World) : extends w w [].
Proof. split; try done; cbn; by rewrite app_nil_r. Qed.

Lemma extends_trans (w1 w2 w3 : World) (t1 t2 : list Call) :
  extends w1 w2 t1 → extends w2 w3 t2 → extends w1 w3 (t1 ++ t2).
Proof.
  intros [S1 T1 O1 C1 P1 L1] [S2 T2 O2 C2 P2 L2]. split.
  - by rewrite S2.
  - by rewrite T2.
  - intros h. by rewrite O2.
  - intros h. by rewrite C2.
  - by rewrite P2, P1, emit_calls_app, app_assoc.
  - by rewrite L2, L1, app_assoc.
Qed.

Lemma extends_emit (e : Event) (w : World) :
  extends w (EventBus.emit e w) [CallEmit e].
Proof. by split. Qed.

Lemma extends_report (h : ObjId) (ex : Exn) (w : World) :
  extends w (EventBus.report h ex w) [].
Proof. split; try done; cbn; by rewrite app_nil_r. Qed.

Lemma extends_log (c : Call) (w : World) :
  emit_calls [c] = [] → extends w (log c w) [c].
Proof. intros Hc. split; try done. rewrite Hc. cbn. by rewrite app_nil_r. Qed.

Lemma lookup_alter_keeps {B : Type} (g : Instance → B) (f : Instance → Instance)
    (l : list Instance) (i j : nat) :
  (∀ x, g (f x) = g x) → g <$> alter f i l !! j = g <$> l !! j.
Proof.
  intros Hg. destruct (decide (i = j)) as [->|Hne].
  - rewrite list_lookup_alter_eq. destruct (l !! j); cbn; [by rewrite Hg|done].
  - by rewrite list_lookup_alter_ne.
Qed.

Lemma extends_set_attrs (a : gmap string Value) (self : ObjId) (w : World) :
  extends w (with_heap (alter (Component.set_attrs a) self (heap w)) w) [].
Proof.
  split; try done; cbn.
  - intros h. unfold owner. cbn. by apply lookup_alter_keeps.
  - intros h. by apply lookup_alter_keeps.
  - by rewrite app_nil_r.
  - by rewrite app_nil_r.
Qed.

Lemma extends_emit_event (self : ObjId) (event_type : string)
    (data : option (gmap string Value)) (priority : option Z)
    (target : option string) (w : World) :
  ∃ es, extends w (Component.emit_event self event_type data priority target w)
          (CallEmit <$> es) ∧
        Forall (λ e, timestamp e = current_time (bus w)) es.
Proof.
  unfold Component.emit_event. destruct (heap w !! self) as [inst|].
  - eexists [_]. split; [apply extends_emit|]. by repeat constructor.
  - exists []. split; [apply extends_refl|constructor].
Qed.

Lemma extends_foldl_emits {A : Type} (f : World → A → World) (l : list A) :
  (∀ w a, ∃ es, extends w (f w a) (CallEmit <$> es) ∧
                Forall (λ e, timestamp e = current_time (bus w)) es) →
  ∀ w, ∃ es, extends w (foldl f w l) (CallEmit <$> es) ∧
             Forall (λ e, timestamp e = current_time (bus w)) es.
Proof.
  intros Hf. induction l as [|a l IH]; intros w; cbn.
  - exists []. split; [apply extends_refl|constructor].
  - destruct (Hf w a) as (es1 & E1 & F1).
    destruct (IH (f w a)) as (es2 & E2 & F2).
    exists (es1 ++ es2). split.
    + rewrite fmap_app. by eapply extends_trans.
    + apply Forall_app. split; [done|].
      rewrite (ext_time _ _ _ E1) in F2. done.
Qed.

Lemma extends_perform (self : ObjId) (r : MethodResult) (w : World) :
  ∃ es, extends w (Component.perform self r w).2 (CallEmit <$> es) ∧
        Forall (λ e, timestamp e = current_time (bus w)) es.
Proof.
  unfold Component.perform. cbn.
  destruct (extends_foldl_emits
    (λ w c, Component.emit_event self (emit_type c) (emit_data c)
              (emit_priority c) (emit_target c) w) (emitted r)
    (λ w c, extends_emit_event self _ _ _ _ w)
    (with_heap (alter (Component.set_attrs (new_attrs r)) self (heap w)) w))
    as (es & E & F).
  exists es. split; [|done].
  change (CallEmit <$> es) with ([] ++ (CallEmit <$> es)).
  eapply extends_trans; [apply extends_set_attrs|done].
Qed.

(** Every dispatched method logs its call and then only performs. *)
Lemma extends_method (c : Call) (self : ObjId) (w : World)
    (body : Instance → MethodResult) :
  emit_calls [c] = [] →
  ∃ es, extends w
          (match heap (log c w) !! self with
           | Some inst => Component.perform self (body inst) (log c w)
           | None => (None, log c w)
           end).2 (c :: (CallEmit <$> es)) ∧
        Forall (λ e, timestamp e = current_time (bus w)) es.
Proof.
  intros Hc. destruct (heap (log c w) !! self) as [inst|].
  - destruct (extends_perform self (body inst) (log c w)) as (es & E & F).
    exists es. split; [|done].
    change (c :: (CallEmit <$> es)) with ([c] ++ (CallEmit <$> es)).
    eapply extends_trans; [by apply extends_log|done].
  - exists []. split; [by apply extends_log|constructor].
Qed.

Lemma on_event_contract (classes : ClassId → ClassDef) :
  handler_contract (Component.on_event classes).
Proof.
  intros h e w. unfold Component.on_event.
  apply (extends_method (CallOnEvent h e) h w
           (λ inst, cls_on_event (classes (inst_class inst)) inst e)). done.
Qed.

(** ** The delivery pass of the bus *)

Lemma delivered_refl (w : World) : delivered w w [].
Proof. exists []. split; [apply extends_refl|]. split; [done|constructor]. Qed.

Lemma delivered_trans (w1 w2 w3 : World) (d1 d2 : list (ObjId * Event)) :
  delivered w1 w2 d1 → delivered w2 w3 d2 → delivered w1 w3 (d1 ++ d2).
Proof.
  intros (t1 & E1 & D1 & F1) (t2 & E2 & D2 & F2). exists (t1 ++ t2).
  split; [by eapply extends_trans|]. split.
  - by rewrite on_event_calls_app, D1, D2.
  - rewrite emit_calls_app. apply Forall_app. split; [done|].
    by rewrite (ext_time _ _ _ E1) in F2.
Qed.

Lemma recipients_extends (w w' : World) (t : list Call) (e : Event) :
  extends w w' t → EventBus.recipients w' e = EventBus.recipients w e.
Proof.
  intros E. unfold EventBus.recipients, EventBus.handlers_for, EventBus.addressed_to.
  rewrite (ext_subscriptions _ _ _ E).
  apply list_filter_iff. intros h. by rewrite (ext_owner _ _ _ E).
Qed.

Lemma recipients_delivered (w w' : World) (ds : list (ObjId * Event)) (e : Event) :
  delivered w w' ds → EventBus.recipients w' e = EventBus.recipients w e.
Proof. intros (t & E & _). by eapply recipients_extends. Qed.

Lemma owed_ext (w w' : World) (es : list Event) :
  (∀ e, EventBus.recipients w' e = EventBus.recipients w e) →
  (e ← es; (λ h, (h, e)) <$> EventBus.recipients w' e)
  = (e ← es; (λ h, (h, e)) <$> EventBus.recipients w e).
Proof.
  intros H. induction es as [|e es IH]; [done|]. cbn. by rewrite H, IH.
Qed.

Section Delivery.

Context (call : ObjId → Event → World → option Exn * World).
Hypothesis call_ok : handler_contract call.

Lemma deliver_to_delivered (e : Event) (w : World) (h : ObjId) :
  delivered w (EventBus.deliver_to call e w h) [(h, e)].
Proof.
  destruct (call_ok h e w) as (es & E & F).
  assert (D : delivered w (call h e w).2 [(h, e)]).
  { exists ([CallOnEvent h e] ++ (CallEmit <$> es)). split; [done|]. split.
    - by rewrite on_event_calls_app, on_event_calls_emits.
    - by rewrite emit_calls_app, emit_calls_emits. }
  unfold EventBus.deliver_to. destruct (call h e w) as [[ex|] w']; cbn in *; [|done].
  rewrite <- (app_nil_r [(h, e)]). eapply delivered_trans; [exact D|].
  exists []. split; [apply extends_report|]. split; [done|constructor].
Qed.

Lemma foldl_deliver_to_delivered (e : Event) (hs : list ObjId) (w : World) :
  delivered w (foldl (EventBus.deliver_to call e) w hs) ((λ h, (h, e)) <$> hs).
Proof.
  revert w. induction hs as [|h hs IH]; intros w; cbn.
  - apply delivered_refl.
  - change ((h, e) :: ((λ h, (h, e)) <$> hs))
      with ([(h, e)] ++ ((λ h, (h, e)) <$> hs)).
    eapply delivered_trans; [apply deliver_to_delivered|apply IH].
Qed.

Lemma deliver_delivered (w : World) (e : Event) :
  delivered w (EventBus.deliver call w e) ((λ h, (h, e)) <$> EventBus.recipients w e).
Proof. apply foldl_deliver_to_delivered. Qed.

Lemma foldl_deliver_delivered (es : list Event) (w : World) :
  delivered w (foldl (EventBus.deliver call) w es)
    (e ← es; (λ h, (h, e)) <$> EventBus.recipients w e).
Proof.
  revert w. induction es as [|e es IH]; intros w; cbn.
  - apply delivered_refl.
  - eapply delivered_trans; [apply deliver_delivered|].
    pose proof (deliver_delivered w e) as D.
    replace (e0 ← es; (λ h, (h, e0)) <$> EventBus.recipients w e0)
      with (e0 ← es; (λ h, (h, e0)) <$> EventBus.recipients (EventBus.deliver call w e) e0).
    + apply IH.
    + apply owed_ext. intros e0. by eapply recipients_delivered.
Qed.

(** One tick, as seen from outside: the log grows by [t]; the on_event
    calls in [t] are the deliveries owed for the queue the tick found; the
    queue it leaves holds what was emitted meanwhile, stamped with the new
    clock; subscriptions and owners are as before. *)
Lemma tick_spec (w : World) :
  ∃ t, trace (EventBus.tick call w) = trace w ++ t ∧
       on_event_calls t = deliveries w (pending (bus w)) ∧
       pending (bus (EventBus.tick call w)) = emit_calls t ∧
       Forall (λ e, timestamp e = current_time (bus w) + 1) (emit_calls t) ∧
       current_time (bus (EventBus.tick call w)) = current_time (bus w) + 1 ∧
       subscriptions (bus (EventBus.tick call w)) = subscriptions (bus w) ∧
       (∀ h, owner (EventBus.tick call w) h = owner w h).
Proof.
  unfold EventBus.tick.
  set (w0 := with_bus _ w).
  destruct (foldl_deliver_delivered (EventBus.delivery_order (pending (bus w))) w0)
    as (t & E & D & F).
  exists t. destruct E as [S T O C P L]. by repeat split.
Qed.

End Delivery.

(** ** The delivery order is a stable sort by priority *)

Lemma insert_by_priority_perm (e : Event) (l : list Event) :
  EventBus.insert_by_priority e l ≡ₚ e :: l.
Proof.
  induction l as [|e' l IH]; cbn; [done|].
  destruct (priority e <=? priority e'); [done|].
  rewrite IH. apply Permutation_swap.
Qed.

Lemma delivery_order_perm (batch : list Event) :
  EventBus.delivery_order batch ≡ₚ batch.
Proof.
  induction batch as [|e batch IH]; cbn; [done|].
  by rewrite insert_by_priority_perm, IH.
Qed.

Lemma insert_by_priority_sorted (e : Event) (l : list Event) :
  StronglySorted (λ a b, priority a ≤ priority b) l →
  StronglySorted (λ a b, priority a ≤ priority b) (EventBus.insert_by_priority e l).
Proof.
  induction 1 as [|e' l Hl IH Hall]; cbn.
  - repeat constructor.
  - destruct (Z.leb_spec (priority e) (priority e')) as [Hle|Hgt].
    + constructor; [by constructor|]. constructor; [done|].
      eapply Forall_impl; [exact Hall|]. cbn. intros x Hx. lia.
    + constructor; [done|].
      rewrite insert_by_priority_perm. constructor; [lia|done].
Qed.

Lemma delivery_order_sorted (batch : list Event) :
  StronglySorted (λ a b, priority a ≤ priority b) (EventBus.delivery_order batch).
Proof.
  induction batch as [|e batch IH]; cbn; [constructor|].
  by apply insert_by_priority_sorted.
Qed.

Lemma insert_by_priority_filter (p : Z) (e : Event) (l : list Event) :
  filter (λ x, priority x = p) (EventBus.insert_by_priority e l)
  = filter (λ x, priority x = p) (e :: l).
Proof.
  induction l as [|e' l IH]; cbn; [done|].
  destruct (Z.leb_spec (priority e) (priority e')) as [Hle|Hgt]; [done|].
  rewrite (filter_cons _ e'), IH, !filter_cons.
  repeat case_decide; try done. lia.
Qed.

Lemma delivery_order_stable (p : Z) (batch : list Event) :
  filter (λ x, priority x = p) (EventBus.delivery_order batch)
  = filter (λ x, priority x = p) batch.
Proof.
  induction batch as [|e batch IH]; cbn; [done|].
  by rewrite insert_by_priority_filter, !filter_cons, IH.
Qed.

(** C1. One tick delivers the events it found pending in ascending priority
    value, events of equal priority in the order they were emitted: the
    on_event calls of the tick are the recipients of each event, event by
    event along [delivery_order], which is sorted by priority, a
    rearrangement of the queue, and keeps the emission order within each
    priority.  Events A (1), B (5), C (1) emitted in this order reach a
    shared handler as A, C, B. *)
Theorem tick_delivers_by_priority (classes : ClassId → ClassDef) (w : World) :
  let batch := pending (bus w) in
  let w' := EventBus.tick (Component.on_event classes) w in
  on_event_calls (since w w') = deliveries w batch
  ∧ StronglySorted (λ a b, priority a ≤ priority b) (EventBus.delivery_order batch)
  ∧ EventBus.delivery_order batch ≡ₚ batch
  ∧ (∀ p, filter (λ e, priority e = p) (EventBus.delivery_order batch)
          = filter (λ e, priority e = p) batch)
  ∧ (∀ h A B C,
       batch = [A; B; C] →
       priority A = 1 → priority B = 5 → priority C = 1 →
       (∀ e, e ∈ batch → EventBus.recipients w e = [h]) →
       on_event_calls (since w w') = [(h, A); (h, C); (h, B)]).
Proof.
  intros batch w'.
  destruct (tick_spec _ (on_event_contract classes) w) as (t & L & D & _).
  assert (Hcalls : on_event_calls (since w w') = deliveries w batch).
  { unfold w'. by rewrite (since_app _ _ _ L). }
  split; [done|]. split; [apply delivery_order_sorted|].
  split; [apply delivery_order_perm|]. split; [intros p; apply delivery_order_stable|].
  intros h A B C HB HA HBp HC Hrec. rewrite Hcalls. unfold deliveries.
  subst batch. rewrite HB in *. cbn [EventBus.delivery_order EventBus.insert_by_priority].
  rewrite HBp, HC. cbn [Z.leb Z.compare Pos.compare Pos.compare_cont EventBus.insert_by_priority].
  rewrite HA, HC. cbn.
  rewrite !Hrec by (rewrite !elem_of_cons; tauto). done.
Qed.

Lemma tick_delivers_by_priority_witness :
  on_event_calls
    (since three_pings_world
       (EventBus.tick (Component.on_event demo_classes) three_pings_world))
  = [(0%nat, ping 1 "agent_7"); (0%nat, ping 1 "all"); (0%nat, ping 5 "agent_7")].
Proof.
  refine (proj2 (proj2 (proj2 (proj2
    (tick_delivers_by_priority demo_classes three_pings_world))))
    0%nat (ping 1 "agent_7") (ping 5 "agent_7") (ping 1 "all") _ _ _ _ _).
  - vm_compute. reflexivity.
  - reflexivity.
  - reflexivity.
  - reflexivity.
  - intros e He. vm_compute in He.
    repeat (apply elem_of_cons in He as [->|He]); try (vm_compute; reflexivity).
    by apply elem_of_nil in He.
Defined.

(** ** Who receives an event *)

Lemma elem_of_recipients (w : World) (e : Event) (h : ObjId) :
  h ∈ EventBus.recipients w e ↔
  h ∈ EventBus.handlers_for (bus w) (type e) ∧
  (target e = BROADCAST ∨ owner w h = Some (target e)).
Proof.
  unfold EventBus.recipients, EventBus.addressed_to.
  rewrite list_elem_of_filter, orb_true_iff, !bool_decide_eq_true. tauto.
Qed.

Lemma elem_of_deliveries (w : World) (batch : list Event) (h : ObjId) (e : Event) :
  (h, e) ∈ deliveries w batch ↔ e ∈ batch ∧ h ∈ EventBus.recipients w e.
Proof.
  unfold deliveries. rewrite list_elem_of_bind. split.
  - intros (e' & Hin & He'). apply list_elem_of_fmap in Hin as (h' & Heq & Hh').
    injection Heq as -> ->. split; [|done].
    by rewrite <- (delivery_order_perm batch).
  - intros [He Hh]. exists e. split.
    + apply list_elem_of_fmap. by exists h.
    + by rewrite (delivery_order_perm batch).
Qed.

(** C4. One tick calls, for every event it delivers, exactly the handlers
    that are subscribed to the type of the event and that the event is
    addressed to: the owner of the handler is the target, or the target is
    the broadcast sentinel "all".  An event for "agent_7" only reaches
    handlers owned by "agent_7"; an event for "all" reaches every
    subscriber of its type. *)
Theorem tick_targeted_delivery (classes : ClassId → ClassDef) (w : World) :
  let w' := EventBus.tick (Component.on_event classes) w in
  let calls := on_event_calls (since w w') in
  calls = deliveries w (pending (bus w))
  ∧ (∀ e, EventBus.recipients w e
          = filter (λ h, target e = "all" ∨ owner w h = Some (target e))
              (EventBus.handlers_for (bus w) (type e)))
  ∧ (∀ h e, (h, e) ∈ calls ↔
            e ∈ pending (bus w) ∧
            h ∈ EventBus.handlers_for (bus w) (type e) ∧
            (target e = "all" ∨ owner w h = Some (target e)))
  ∧ (∀ h e, (h, e) ∈ calls → target e = "agent_7" → owner w h = Some "agent_7")
  ∧ (∀ h e, e ∈ pending (bus w) → target e = "all" →
            h ∈ EventBus.handlers_for (bus w) (type e) → (h, e) ∈ calls).
Proof.
  intros w' calls.
  destruct (tick_spec _ (on_event_contract classes) w) as (t & L & D & _).
  assert (Hcalls : calls = deliveries w (pending (bus w))).
  { unfold calls, w'. by rewrite (since_app _ _ _ L). }
  assert (Hiff : ∀ h e, (h, e) ∈ calls ↔
            e ∈ pending (bus w) ∧
            h ∈ EventBus.handlers_for (bus w) (type e) ∧
            (target e = "all" ∨ owner w h = Some (target e))).
  { intros h e. rewrite Hcalls, elem_of_deliveries, elem_of_recipients. done. }
  split; [done|]. split.
  { intros e. unfold EventBus.recipients, EventBus.addressed_to.
    apply list_filter_iff. intros h.
    rewrite orb_true_iff, !bool_decide_eq_true. done. }
  split; [done|]. split.
  - intros h e Hin Ht. apply Hiff in Hin as (_ & _ & [Hall|Hown]).
    + rewrite Ht in Hall. discriminate.
    + by rewrite Ht in Hown.
  - intros h e He Ht Hh. apply Hiff. auto.
Qed.

Lemma tick_targeted_delivery_witness :
  owner two_agents_world 0%nat = Some "agent_7"
  ∧ on_event_calls
      (since two_agents_world
         (EventBus.tick (Component.on_event demo_classes) two_agents_world))
    = [(0%nat, ping 5 "agent_7"); (0%nat, ping 5 "all"); (2%nat, ping 5 "all")].
Proof.
  split.
  - apply (proj1 (proj2 (proj2 (proj2
      (tick_targeted_delivery demo_classes two_agents_world))))
      0%nat (ping 5 "agent_7")); [|reflexivity].
    vm_compute. apply list_elem_of_here.
  - rewrite (proj1 (tick_targeted_delivery demo_classes two_agents_world)).
    vm_compute. reflexivity.
Defined.

(** C2. What a handler emits while tick N is delivering is not delivered by
    tick N: that pass is fixed by the queue the tick found.  The emitted
    events form the queue tick N leaves, and tick N+1 delivers each of them
    to every handler that is subscribed to its type and addressed by it.
    Pending events carry the clock of their emission, hence a timestamp
    that is not ahead of the clock. *)
Theorem tick_isolation (classes : ClassId → ClassDef) (w : World) :
  let w1 := EventBus.tick (Component.on_event classes) w in
  let w2 := EventBus.tick (Component.on_event classes) w1 in
  Forall (λ e, timestamp e ≤ current_time (bus w)) (pending (bus w)) →
  on_event_calls (since w w1) = deliveries w (pending (bus w))
  ∧ pending (bus w1) = emit_calls (since w w1)
  ∧ on_event_calls (since w1 w2) = deliveries w1 (emit_calls (since w w1))
  ∧ (∀ e, e ∈ emit_calls (since w w1) →
       (∀ h, (h, e) ∉ on_event_calls (since w w1))
       ∧ (∀ h, h ∈ EventBus.recipients w1 e → (h, e) ∈ on_event_calls (since w1 w2))).
Proof.
  intros w1 w2 Hstamps.
  destruct (tick_spec _ (on_event_contract classes) w) as (t1 & L1 & D1 & P1 & F1 & _).
  destruct (tick_spec _ (on_event_contract classes) w1) as (t2 & L2 & D2 & _).
  fold w1 in L1, P1. fold w2 in L2.
  rewrite (since_app _ _ _ L1), (since_app _ _ _ L2), D1, D2, P1.
  split; [done|]. split; [done|]. split; [done|].
  intros e He. split.
  - intros h [Hin _]%elem_of_deliveries.
    rewrite Forall_forall in Hstamps, F1.
    specialize (Hstamps e Hin). specialize (F1 e He). cbn in *. lia.
  - intros h Hh. by apply elem_of_deliveries.
Qed.

Lemma tick_isolation_witness :
  let w1 := EventBus.tick (Component.on_event demo_classes) ping_pong_world in
  let w2 := EventBus.tick (Component.on_event demo_classes) w1 in
  ((0%nat, pong) ∉ on_event_calls (since ping_pong_world w1))
  ∧ ((0%nat, pong) ∈ on_event_calls (since w1 w2)).
Proof.
  intros w1 w2.
  assert (Hstamps : Forall (λ e, timestamp e ≤ current_time (bus ping_pong_world))
                      (pending (bus ping_pong_world))).
  { vm_compute. repeat constructor. discriminate. }
  assert (Hpong : pong ∈ emit_calls (since ping_pong_world w1)).
  { vm_compute. apply list_elem_of_here. }
  destruct (proj2 (proj2 (proj2
    (tick_isolation demo_classes ping_pong_world Hstamps))) pong Hpong) as [Hnot Hnext].
  split; [apply Hnot|]. apply Hnext. vm_compute. apply list_elem_of_here.
Defined.

(** ** Insertion-ordered dictionaries *)

Section Dict.

Context {K V : Type} `{EqDecision K}.
Implicit Types (k : K) (v : V) (d : list (K * V)).

Lemma dict_get_set_eq k v d : dict_get k (dict_set k v d) = Some v.
Proof.
  induction d as [|[k' v'] d IH]; cbn.
  - by rewrite decide_True.
  - destruct (decide (k' = k)) as [->|Hne]; cbn.
    + by rewrite decide_True.
    + by rewrite decide_False.
Qed.

Lemma dict_get_set_ne k k' v d :
  k ≠ k' → dict_get k' (dict_set k v d) = dict_get k' d.
Proof.
  intros Hne. induction d as [|[k0 v0] d IH]; cbn.
  - by rewrite decide_False.
  - destruct (decide (k0 = k)) as [->|Hne0]; cbn.
    + by rewrite !decide_False.
    + by rewrite IH.
Qed.

Lemma dict_get_None k d : dict_get k d = None ↔ k ∉ dict_keys d.
Proof.
  unfold dict_keys. induction d as [|[k' v'] d IH]; cbn.
  - split; [intros _; apply not_elem_of_nil|done].
  - rewrite not_elem_of_cons. destruct (decide (k' = k)) as [->|Hne].
    + split; [done|]. intros [? _]. done.
    + rewrite IH. split; [intros ?; split; [congruence|done]|by intros [_ ?]].
Qed.

Lemma dict_get_Some k v d : dict_get k d = Some v → (k, v) ∈ d.
Proof.
  induction d as [|[k' v'] d IH]; cbn; [done|].
  destruct (decide (k' = k)) as [->|Hne].
  - intros [= ->]. apply list_elem_of_here.
  - intros H'. apply list_elem_of_further. by apply IH.
Qed.

Lemma dict_mem_false k d : dict_mem k d = false ↔ k ∉ dict_keys d.
Proof. unfold dict_mem, dict_keys. by rewrite bool_decide_eq_false. Qed.

Lemma dict_mem_true k d : dict_mem k d = true ↔ k ∈ dict_keys d.
Proof. unfold dict_mem, dict_keys. by rewrite bool_decide_eq_true. Qed.

(** Setting a key that is there keeps the keys and their order; a new key
    goes to the end. *)
Lemma dict_keys_set k v d :
  dict_keys (dict_set k v d)
  = if decide (k ∈ dict_keys d) then dict_keys d else dict_keys d ++ [k].
Proof.
  unfold dict_keys. induction d as [|[k' v'] d IH]; cbn.
  - rewrite decide_False; [done|apply not_elem_of_nil].
  - destruct (decide (k' = k)) as [->|Hne]; cbn.
    + rewrite decide_True; [done|apply list_elem_of_here].
    + rewrite IH. destruct (decide (k ∈ d.*1)) as [Hin|Hnin].
      * rewrite decide_True; [done|by apply list_elem_of_further].
      * rewrite decide_False; [done|]. rewrite not_elem_of_cons. split; [congruence|done].
Qed.

Lemma dict_keys_set_NoDup k v d :
  NoDup (dict_keys d) → NoDup (dict_keys (dict_set k v d)).
Proof.
  intros Hd. rewrite dict_keys_set. case_decide; [done|].
  apply NoDup_app. split; [done|]. split.
  - intros x Hx [->|[]%elem_of_nil]%elem_of_cons. done.
  - apply NoDup_singleton.
Qed.

Lemma elem_of_dict_set k v k' v' d :
  (k', v') ∈ dict_set k v d → (k' = k ∧ v' = v) ∨ (k', v') ∈ d.
Proof.
  induction d as [|[k0 v0] d IH]; cbn.
  - intros [[= -> ->]|[]%elem_of_nil]%elem_of_cons. by left.
  - destruct (decide (k0 = k)) as [->|Hne].
    + intros [[= -> ->]|Hin]%elem_of_cons; [by left|].
      right. by apply list_elem_of_further.
    + intros [[= -> ->]|Hin]%elem_of_cons.
      * right. apply list_elem_of_here.
      * destruct (IH Hin) as [?|?]; [by left|].
        right. by apply list_elem_of_further.
Qed.

(** With distinct keys, the entries of a key are the one that [dict_get]
    finds. *)
Lemma dict_entries k d :
  NoDup (dict_keys d) →
  filter (λ kv, kv.1 = k) d
  = match dict_get k d with Some v => [(k, v)] | None => [] end.
Proof.
  unfold dict_keys. induction d as [|[k' v'] d IH]; [done|].
  rewrite fmap_cons. intros [Hk' Hd]%NoDup_cons. rewrite filter_cons. cbn.
  destruct (decide (k' = k)) as [->|Hne].
  - f_equal. specialize (IH Hd).
    destruct (dict_get k d) as [v|] eqn:Hget; [|done].
    apply dict_get_Some in Hget. exfalso. apply Hk'.
    apply list_elem_of_fmap. by exists (k, v).
  - by apply IH.
Qed.

End Dict.

(** ** Subscribing and constructing *)

Lemma lookup_foldr_register (h : ObjId) (tbl : gmap string (list ObjId))
    (tys : list string) (ty : string) :
  NoDup tys →
  default [] (foldr (EventBus.register h) tbl tys !! ty)
  = default [] (tbl !! ty) ++ (if decide (ty ∈ tys) then [h] else []).
Proof.
  induction 1 as [|a tys Ha Hnd IH]; cbn.
  - rewrite decide_False; [by rewrite app_nil_r|apply not_elem_of_nil].
  - unfold EventBus.register at 1. destruct (decide (a = ty)) as [->|Hne].
    + rewrite lookup_insert_eq. cbn. rewrite IH.
      rewrite (decide_False (P := ty ∈ tys)) by done. rewrite app_nil_r.
      rewrite decide_True; [done|apply list_elem_of_here].
    + rewrite lookup_insert_ne by done. rewrite IH.
      destruct (decide (ty ∈ tys)) as [Hin|Hnin].
      * rewrite decide_True; [done|by apply list_elem_of_further].
      * rewrite decide_False; [done|]. rewrite not_elem_of_cons. split; [congruence|done].
Qed.

Lemma handlers_for_subscribe (tys : list string) (h : ObjId) (w : World) (ty : string) :
  EventBus.handlers_for (bus (EventBus.subscribe tys h w)) ty
  = EventBus.handlers_for (bus w) ty ++ (if decide (ty ∈ tys) then [h] else []).
Proof.
  unfold EventBus.handlers_for, EventBus.subscribe. cbn.
  rewrite lookup_foldr_register by apply NoDup_remove_dups.
  f_equal. apply decide_ext. apply elem_of_remove_dups.
Qed.

Lemma registers_refl (o : ObjId) (w : World) : registers o w w [].
Proof.
  split; try done; cbn; try by rewrite app_nil_r.
  intros ty. exists 0%nat. cbn. by rewrite app_nil_r.
Qed.

Lemma registers_trans (o : ObjId) (w1 w2 w3 : World) (es1 es2 : list Event) :
  registers o w1 w2 es1 → registers o w2 w3 es2 → registers o w1 w3 (es1 ++ es2).
Proof.
  intros [H1 T1 P1 L1 N1 O1 C1 W1] [H2 T2 P2 L2 N2 O2 C2 W2]. split.
  - intros ty. destruct (H1 ty) as [k1 E1]. destruct (H2 ty) as [k2 E2].
    exists (k1 + k2)%nat. by rewrite E2, E1, replicate_add, app_assoc.
  - by rewrite T2.
  - by rewrite P2, P1, app_assoc.
  - by rewrite L2, L1, fmap_app, app_assoc.
  - by rewrite N2.
  - intros h Hh. by rewrite O2, O1.
  - by rewrite C2.
  - by rewrite W2.
Qed.

Lemma registers_subscribe (self : ObjId) (tys : list string) (w : World) :
  registers self w (Component.subscribe self tys w) [].
Proof.
  split; try done.
  - intros ty.
    change (bus (Component.subscribe self tys w))
      with (bus (EventBus.subscribe tys self w)).
    rewrite handlers_for_subscribe. case_decide; [by exists 1%nat|exists 0%nat].
    cbn. by rewrite app_nil_r.
  - cbn. by rewrite app_nil_r.
  - cbn. by rewrite app_nil_r.
  - cbn. apply length_alter.
  - intros h Hh. cbn. by rewrite list_lookup_alter_ne.
  - cbn. by apply lookup_alter_keeps.
  - unfold owner. cbn. by apply lookup_alter_keeps.
Qed.

Lemma registers_foldl_subscribe (self : ObjId) (calls : list (list string)) (w : World) :
  registers self w
    (foldl (λ w event_types, Component.subscribe self event_types w) w calls) [].
Proof.
  revert w. induction calls as [|tys calls IH]; intros w; cbn.
  - apply registers_refl.
  - change (@nil Event) with (@nil Event ++ []).
    eapply registers_trans; [apply registers_subscribe|apply IH].
Qed.

Lemma registers_set_agent (o : ObjId) (a : option ObjId) (w : World) :
  registers o w (with_heap (alter (Component.set_agent a) o (heap w)) w) [].
Proof.
  split; cbn; try done; try by rewrite app_nil_r.
  - intros ty. exists 0%nat. cbn. by rewrite app_nil_r.
  - apply length_alter.
  - intros h Hh. by rewrite list_lookup_alter_ne.
  - by apply lookup_alter_keeps.
  - unfold owner. cbn. by apply lookup_alter_keeps.
Qed.

Lemma registers_emit_event (o self : ObjId) (event_type : string)
    (d : option (gmap string Value)) (p : option Z) (tg : option string) (w : World) :
  ∃ es, registers o w (Component.emit_event self event_type d p tg w) es.
Proof.
  unfold Component.emit_event. destruct (heap w !! self) as [inst|].
  - eexists [_]. split; try done. intros ty. exists 0%nat. cbn. by rewrite app_nil_r.
  - exists []. apply registers_refl.
Qed.

Lemma registers_foldl_emit (o self : ObjId) (l : list EmitCall) (w : World) :
  ∃ es, registers o w
          (foldl (λ w c, Component.emit_event self (emit_type c) (emit_data c)
                           (emit_priority c) (emit_target c) w) w l) es.
Proof.
  revert w. induction l as [|c l IH]; intros w; cbn.
  - exists []. apply registers_refl.
  - destruct (registers_emit_event o self (emit_type c) (emit_data c)
                (emit_priority c) (emit_target c) w) as [es1 R1].
    destruct (IH (Component.emit_event self (emit_type c) (emit_data c)
                    (emit_priority c) (emit_target c) w)) as [es2 R2].
    exists (es1 ++ es2). by eapply registers_trans.
Qed.

(** What calling a class does to the world, whether the constructor
    returns or raises: either nothing at all, or the new instance is in the
    heap and did what [registers] allows. *)
Lemma new_world (classes : ClassId → ClassDef) (T : ClassId) (aid : string)
    (args : list Value) (w w1 : World) (r : Exn + ObjId) :
  Component.new classes T aid args w = (r, w1) →
  (w1 = w ∧ ∃ ex, r = inl ex ∧ cls_init (classes T) aid args = inl ex)
  ∨ (∃ inst es res,
       cls_init (classes T) aid args = inr res
       ∧ r = match init_raised res with
             | Some ex => inl ex
             | None => inr (length (heap w))
             end
       ∧ inst_class inst = T ∧ agent_id inst = aid
       ∧ registers (length (heap w)) (with_heap (heap w ++ [inst]) w) w1 es).
Proof.
  unfold Component.new. intros Hnew.
  destruct (cls_init (classes T) aid args) as [ex|res].
  - injection Hnew as <- <-. left. split; [done|]. by exists ex.
  - injection Hnew as <- <-. right.
    set (self := length (heap w)).
    set (inst := Component.set_attrs (init_attrs res) (Component.__init__ T aid)).
    set (w0 := with_heap (heap w ++ [inst]) w).
    set (w1 := foldl (λ wk event_types, Component.subscribe self event_types wk)
                 w0 (init_subscribe res)).
    destruct (registers_foldl_emit self self (init_emit res) w1) as [es R].
    exists inst, es, res. split; [done|]. split; [done|]. split; [done|]. split; [done|].
    change es with ([] ++ es).
    eapply registers_trans; [apply registers_foldl_subscribe|exact R].
Qed.

Lemma new_ok (classes : ClassId → ClassDef) (T : ClassId) (aid : string)
    (args : list Value) (w w1 : World) (o : ObjId) :
  Component.new classes T aid args w = (inr o, w1) →
  o = length (heap w) ∧
  ∃ inst es, inst_class inst = T ∧ agent_id inst = aid ∧
             registers o (with_heap (heap w ++ [inst]) w) w1 es.
Proof.
  intros [(_ & ex & [=] & _)|(inst & es & res & _ & Hr & Hc & Ha & R)]%new_world.
  assert (o = length (heap w)) as -> by (destruct (init_raised res); congruence).
  split; [done|]. by exists inst, es.
Qed.

(** ** add_component *)

Section AddComponent.

Context (classes : ClassId → ClassDef).

Lemma add_component_ok (T : ClassId) (args : list Value)
    (m m' : ComponentManager.t) (w w' : World) (o : ObjId) :
  ComponentManager.add_component classes T args m w = (inr o, m', w') →
  o = length (heap w) ∧
  ComponentManager._components m'
    = dict_set T o (ComponentManager._components m) ∧
  ComponentManager.mgr_agent_id m' = ComponentManager.mgr_agent_id m ∧
  ComponentManager.mgr_agent m' = ComponentManager.mgr_agent m ∧
  ∃ inst es, inst_class inst = T ∧
             agent_id inst = ComponentManager.mgr_agent_id m ∧
             registers o (with_heap (heap w ++ [inst]) w) w' es.
Proof.
  unfold ComponentManager.add_component.
  destruct (Component.new classes T (ComponentManager.mgr_agent_id m) args w)
    as [[ex|c] w1] eqn:Hnew; [done|].
  intros [= <- <- <-].
  apply new_world in Hnew as [(_ & ex & [=] & _)|(inst & es & res & _ & Hr & Hc & Ha & R)].
  assert (c = length (heap w)) as -> by (destruct (init_raised res); congruence).
  split; [done|]. repeat (split; [done|]).
  exists inst, es. split; [done|]. split; [done|].
  rewrite <- (app_nil_r es).
  eapply registers_trans; [exact R|apply registers_set_agent].
Qed.

(** A failed [add_component] leaves the manager as it was; the world is as
    it was, or holds the instance whose constructor raised. *)
Lemma add_component_err (T : ClassId) (args : list Value)
    (m m' : ComponentManager.t) (w w' : World) (ex : Exn) :
  ComponentManager.add_component classes T args m w = (inl ex, m', w') →
  m' = m ∧
  (w' = w ∨ ∃ inst es, inst_class inst = T ∧
                       agent_id inst = ComponentManager.mgr_agent_id m ∧
                       registers (length (heap w)) (with_heap (heap w ++ [inst]) w) w' es).
Proof.
  unfold ComponentManager.add_component.
  destruct (Component.new classes T (ComponentManager.mgr_agent_id m) args w)
    as [[ex'|c] w1] eqn:Hnew; [|done].
  intros [= _ <- <-]. split; [done|].
  apply new_world in Hnew as [(-> & _)|(inst & es & res & _ & _ & Hc & Ha & R)];
    [by left|right]. by exists inst, es.
Qed.

(** What any [add_component] does to the world, whether it returns or
    raises: at most one instance is allocated, the instances that were
    there are untouched, handlers are only registered behind those that
    were registered and only for the new instance, the clock stands, and
    the queue and the log only grow by what the constructor emitted. *)
Lemma add_component_grows (T : ClassId) (args : list Value) (r : Exn + ObjId)
    (m m' : ComponentManager.t) (w w' : World) :
  ComponentManager.add_component classes T args m w = (r, m', w') →
  (length (heap w) ≤ length (heap w') ≤ S (length (heap w)))%nat ∧
  (∀ h, h < length (heap w) → heap w' !! h = heap w !! h)%nat ∧
  (∀ ty, ∃ k, EventBus.handlers_for (bus w') ty
              = EventBus.handlers_for (bus w) ty ++ replicate k (length (heap w))) ∧
  current_time (bus w') = current_time (bus w) ∧
  ∃ es, pending (bus w') = pending (bus w) ++ es ∧
        trace w' = trace w ++ (CallEmit <$> es).
Proof.
  intros Hadd.
  assert (Hcase : w' = w ∨ ∃ inst es,
            registers (length (heap w)) (with_heap (heap w ++ [inst]) w) w' es).
  { destruct r as [ex|o].
    - apply add_component_err in Hadd as [_ [?|(inst & es & _ & _ & R)]]; [by left|right].
      by exists inst, es.
    - apply add_component_ok in Hadd as (-> & _ & _ & _ & inst & es & _ & _ & R).
      right. by exists inst, es. }
  destruct Hcase as [->|(inst & es & [H T' P L N O C W])]; cbn in *.
  - split; [lia|]. split; [done|]. split.
    { intros ty. exists 0%nat. cbn. by rewrite app_nil_r. }
    split; [done|]. exists []. cbn. by rewrite !app_nil_r.
  - split; [rewrite N, length_app; cbn; lia|]. split.
    { intros h Hh. rewrite O by lia. by apply lookup_app_l. }
    split; [done|]. split; [done|]. by exists es.
Qed.

(** What a successful [add_component] does to the world. *)
Lemma add_component_world (T : ClassId) (args : list Value)
    (m m' : ComponentManager.t) (w w' : World) (o : ObjId) :
  ComponentManager.add_component classes T args m w = (inr o, m', w') →
  length (heap w') = S (length (heap w)) ∧
  (∀ h, h < length (heap w) → heap w' !! h = heap w !! h)%nat ∧
  inst_class <$> heap w' !! o = Some T ∧
  owner w' o = Some (ComponentManager.mgr_agent_id m) ∧
  (∀ ty, ∃ k, EventBus.handlers_for (bus w') ty
              = EventBus.handlers_for (bus w) ty ++ replicate k o) ∧
  current_time (bus w') = current_time (bus w).
Proof.
  intros (-> & _ & _ & _ & inst & es & Hc & Ha & [H T' P L N O C W])%add_component_ok.
  cbn in *. split; [|split; [|split; [|split]]].
  - rewrite N, length_app. cbn. lia.
  - intros h Hh. rewrite O by lia. by apply lookup_app_l.
  - rewrite C, list_lookup_middle by done. cbn. by rewrite Hc.
  - rewrite W. unfold owner. cbn. rewrite list_lookup_middle by done. cbn. by rewrite Ha.
  - done.
Qed.

End AddComponent.

(** ** Runs of add_component *)

Section AddComponents.

Context (classes : ClassId → ClassDef).

Lemma registry_ok_init (aid : string) (a : option ObjId) (w : World) :
  registry_ok (ComponentManager.__init__ aid a) w.
Proof.
  split; cbn; [apply NoDup_nil_2|]. by intros T o ?%elem_of_nil.
Qed.

Lemma registry_ok_add (T : ClassId) (args : list Value) (r : Exn + ObjId)
    (m m' : ComponentManager.t) (w w' : World) :
  registry_ok m w →
  ComponentManager.add_component classes T args m w = (r, m', w') →
  registry_ok m' w'.
Proof.
  intros [Hnd Hcls] Hadd. destruct r as [ex|o].
  - pose proof (add_component_grows _ _ _ _ _ _ _ _ Hadd) as (_ & Hold & _).
    apply add_component_err in Hadd as [-> _]. split; [done|].
    intros T0 o0 Hin. specialize (Hcls _ _ Hin). rewrite Hold; [done|].
    apply lookup_lt_is_Some, (fmap_is_Some inst_class). by rewrite Hcls.
  - pose proof (add_component_world _ _ _ _ _ _ _ _ Hadd) as (_ & Hold & Hnew & _).
    apply add_component_ok in Hadd as (_ & Hc & _).
    split; rewrite Hc.
    + by apply dict_keys_set_NoDup.
    + intros T0 o0 [[-> ->]|Hin]%elem_of_dict_set; [done|].
      specialize (Hcls _ _ Hin). rewrite Hold; [done|].
      apply lookup_lt_is_Some, (fmap_is_Some inst_class). by rewrite Hcls.
Qed.

Lemma add_components_snoc (calls : list (ClassId * list Value)) (T : ClassId)
    (args : list Value) (m : ComponentManager.t) (w : World) :
  add_components classes (calls ++ [(T, args)]) m w
  = let '(rs, m1, w1) := add_components classes calls m w in
    let '(r, m2, w2) := ComponentManager.add_component classes T args m1 w1 in
    (rs ++ [r], m2, w2).
Proof.
  unfold add_components. rewrite foldl_snoc.
  by destruct (foldl _ _ calls) as [[rs m1] w1].
Qed.

Lemma latest_snoc (T T' : ClassId) (args : list Value)
    (calls : list (ClassId * list Value)) (rs : list (Exn + ObjId)) (r : Exn + ObjId) :
  length rs = length calls →
  latest T (calls ++ [(T', args)]) (rs ++ [r])
  = match r with
    | inr o => if decide (T' = T) then Some o else latest T calls rs
    | inl _ => latest T calls rs
    end.
Proof.
  intros Hlen. unfold latest. rewrite zip_with_app by done.
  rewrite omap_app. cbn.
  destruct r as [ex|o]; [by rewrite app_nil_r|].
  case_decide; [by rewrite last_snoc|by rewrite app_nil_r].
Qed.

Lemma get_component_add (T T' : ClassId) (args : list Value) (r : Exn + ObjId)
    (m m' : ComponentManager.t) (w w' : World) :
  ComponentManager.add_component classes T' args m w = (r, m', w') →
  ComponentManager.get_component T m'
  = match r with
    | inr o => if decide (T' = T) then Some o else ComponentManager.get_component T m
    | inl _ => ComponentManager.get_component T m
    end.
Proof.
  intros Hadd. destruct r as [ex|o].
  - by apply add_component_err in Hadd as [-> _].
  - apply add_component_ok in Hadd as (_ & Hc & _).
    unfold ComponentManager.get_component. rewrite Hc. case_decide as Heq.
    + rewrite Heq. apply dict_get_set_eq.
    + by apply dict_get_set_ne.
Qed.

(** After a run of [add_component] calls on a new manager: one result per
    call, a well-formed registry, every class resolves to the instance its
    latest successful call returned, and only classes that were added are
    keys. *)
Lemma add_components_spec (aid : string) (a : option ObjId) (w : World)
    (calls : list (ClassId * list Value)) :
  ∀ rs m w',
    add_components classes calls (ComponentManager.__init__ aid a) w = (rs, m, w') →
    length rs = length calls ∧
    registry_ok m w' ∧
    (∀ T, ComponentManager.get_component T m = latest T calls rs) ∧
    (∀ T, T ∈ dict_keys (ComponentManager._components m) → T ∈ calls.*1).
Proof.
  induction calls as [|[T' args] calls IH] using rev_ind; intros rs m w' Hrun.
  - injection Hrun as <- <- <-. split; [done|]. split; [apply registry_ok_init|].
    split; [done|]. cbn. by intros T ?%elem_of_nil.
  - rewrite add_components_snoc in Hrun.
    destruct (add_components classes calls _ w) as [[rs1 m1] w1].
    destruct (ComponentManager.add_component classes T' args m1 w1)
      as [[r m2] w2] eqn:Hadd.
    injection Hrun as <- <- <-.
    destruct (IH _ _ _ eq_refl) as (Hlen & Hok & Hget & Hkeys).
    split; [rewrite !length_app; cbn; lia|].
    split; [by eapply registry_ok_add|]. split.
    + intros T. rewrite (get_component_add T _ _ _ _ _ _ _ Hadd).
      rewrite latest_snoc by done. rewrite Hget. done.
    + intros T. rewrite fmap_app, elem_of_app. cbn. destruct r as [ex|o].
      * apply add_component_err in Hadd as [-> _]. auto.
      * apply add_component_ok in Hadd as (_ & -> & _).
        rewrite dict_keys_set. case_decide; [auto|].
        rewrite elem_of_app. intros [?|?]; auto.
Qed.

End AddComponents.

(** ** The registry of a manager *)

(** C3. After any run of [add_component] calls on a manager, every class
    resolves to the instance returned by the most recent call that added
    it, and the registry holds exactly that one entry for the class.
    Adding a class twice returns two different instances and leaves the
    later one as the only entry; the earlier one is no longer owned. *)
Theorem add_component_last_write_wins (classes : ClassId → ClassDef)
    (aid : string) (a : option ObjId) (w w' : World)
    (calls : list (ClassId * list Value)) (rs : list (Exn + ObjId))
    (m : ComponentManager.t) (T : ClassId) :
  add_components classes calls (ComponentManager.__init__ aid a) w = (rs, m, w') →
  ComponentManager.get_component T m = latest T calls rs
  ∧ filter (λ kv, kv.1 = T) (ComponentManager._components m)
    = match latest T calls rs with Some o => [(T, o)] | None => [] end
  ∧ (∀ args1 args2 o1 o2 m1 w1 m2 w2,
       ComponentManager.add_component classes T args1 m w' = (inr o1, m1, w1) →
       ComponentManager.add_component classes T args2 m1 w1 = (inr o2, m2, w2) →
       o1 ≠ o2
       ∧ ComponentManager.get_component T m2 = Some o2
       ∧ filter (λ kv, kv.1 = T) (ComponentManager._components m2) = [(T, o2)]
       ∧ o1 ∉ ComponentManager.get_all_components m2).
Proof.
  intros Hrun.
  destruct (add_components_spec classes _ _ _ _ _ _ _ Hrun) as (_ & Hok & Hget & _).
  split; [apply Hget|]. split.
  { rewrite <- Hget. apply dict_entries, Hok. }
  intros args1 args2 o1 o2 m1 w1 m2 w2 Hadd1 Hadd2.
  pose proof (registry_ok_add classes _ _ _ _ _ _ _ Hok Hadd1) as Hok1.
  pose proof (registry_ok_add classes _ _ _ _ _ _ _ Hok1 Hadd2) as Hok2.
  pose proof (get_component_add classes T _ _ _ _ _ _ _ Hadd2) as Hget2.
  cbn in Hget2. rewrite decide_True in Hget2 by done.
  pose proof (add_component_world classes _ _ _ _ _ _ _ Hadd1) as (Hlen1 & _).
  pose proof (add_component_ok classes _ _ _ _ _ _ _ Hadd1) as (Ho1 & Hc1 & _).
  pose proof (add_component_ok classes _ _ _ _ _ _ _ Hadd2) as (Ho2 & Hc2 & _).
  assert (Hne : o1 ≠ o2) by lia.
  assert (Hentries : filter (λ kv, kv.1 = T) (ComponentManager._components m2) = [(T, o2)]).
  { rewrite (dict_entries T _ (proj1 Hok2)).
    change (dict_get T (ComponentManager._components m2))
      with (ComponentManager.get_component T m2). by rewrite Hget2. }
  split; [done|]. split; [done|]. split; [done|].
  unfold ComponentManager.get_all_components, dict_values.
  intros ([T0 v] & Hv & Hin)%list_elem_of_fmap. cbn in Hv. subst v.
  destruct (decide (T0 = T)) as [->|HT].
  - assert (Hf : (T, o1) ∈ filter (λ kv, kv.1 = T) (ComponentManager._components m2)).
    { by apply list_elem_of_filter. }
    rewrite Hentries in Hf. apply list_elem_of_singleton in Hf. congruence.
  - rewrite Hc2 in Hin. apply elem_of_dict_set in Hin as [[? _]|Hin]; [done|].
    rewrite Hc1 in Hin. apply elem_of_dict_set in Hin as [[? _]|Hin]; [done|].
    pose proof (proj2 Hok _ _ Hin) as Hlive.
    assert (is_Some (heap w' !! o1)) as Hs.
    { apply (fmap_is_Some inst_class). by rewrite Hlive. }
    apply lookup_lt_is_Some in Hs. lia.
Qed.

Lemma add_component_last_write_wins_witness :
  let run := add_components demo_classes
               [(0%nat, []); (1%nat, []); (2%nat, []); (0%nat, [])]
               (ComponentManager.__init__ "agent_7" None) fresh_world in
  ComponentManager.get_component 0%nat run.1.2 = Some 2%nat
  ∧ filter (λ kv, kv.1 = 0%nat) (ComponentManager._components run.1.2)
    = [(0%nat, 2%nat)].
Proof.
  intros run.
  destruct (add_component_last_write_wins demo_classes "agent_7" None fresh_world
              run.2 [(0%nat, []); (1%nat, []); (2%nat, []); (0%nat, [])]
              run.1.1 run.1.2 0%nat
              ltac:(vm_compute; reflexivity)) as (Hget & Hent & _).
  split.
  - rewrite Hget. vm_compute. reflexivity.
  - rewrite Hent. vm_compute. reflexivity.
Defined.

(** C8. [get_component] of a class that is not in the registry returns the
    not-found value [None]; for every class it returns either [None] or a
    stored instance, and never anything else. *)
Theorem get_component_absent (T : ClassId) (m : ComponentManager.t) :
  T ∉ dict_keys (ComponentManager._components m) →
  ComponentManager.get_component T m = None
  ∧ ComponentManager.has_component T m = false
  ∧ (∀ T', ComponentManager.get_component T' m = None
           ∨ ∃ o, ComponentManager.get_component T' m = Some o
                  ∧ (T', o) ∈ ComponentManager._components m).
Proof.
  intros Habsent. split; [by apply dict_get_None|]. split; [by apply dict_mem_false|].
  intros T'. unfold ComponentManager.get_component.
  destruct (dict_get T' (ComponentManager._components m)) as [o|] eqn:Hget; [|by left].
  right. exists o. split; [done|]. by apply dict_get_Some.
Qed.

Lemma get_component_absent_witness :
  ComponentManager.get_component 2%nat agent_7_world.1 = None
  ∧ ComponentManager.has_component 2%nat agent_7_world.1 = false.
Proof.
  destruct (get_component_absent 2%nat agent_7_world.1) as (Hget & Hhas & _).
  - vm_compute. intros H. repeat (apply elem_of_cons in H as [H|H]; [discriminate|]).
    by apply elem_of_nil in H.
  - by split.
Defined.

(** C9. The registry is keyed by the class object itself.  On a manager to
    which [Base] was never added, [get_component(Base)] finds nothing and
    [has_component(Base)] is false, also when a proper subclass [Sub] of
    [Base] was added and its stored instance is an instance of [Base]. *)
Theorem registry_keyed_by_exact_class (classes : ClassId → ClassDef)
    (Sub Base : ClassId) (aid : string) (a : option ObjId) (w w' : World)
    (calls : list (ClassId * list Value)) (rs : list (Exn + ObjId))
    (m : ComponentManager.t) :
  Sub ≠ Base →
  Component.issubclass classes Sub Base = true →
  Forall (λ c, c.1 ≠ Base) calls →
  add_components classes calls (ComponentManager.__init__ aid a) w = (rs, m, w') →
  ComponentManager.get_component Base m = None
  ∧ ComponentManager.has_component Base m = false
  ∧ (∀ o, latest Sub calls rs = Some o →
          ComponentManager.get_component Sub m = Some o
          ∧ Component.isinstance classes w' o Base = true).
Proof.
  intros Hne Hsub Hcalls Hrun.
  destruct (add_components_spec classes _ _ _ _ _ _ _ Hrun) as (_ & Hok & Hget & Hkeys).
  assert (Habsent : Base ∉ dict_keys (ComponentManager._components m)).
  { intros Hin%Hkeys. apply list_elem_of_fmap in Hin as (c & -> & Hc).
    rewrite Forall_forall in Hcalls. by apply (Hcalls c). }
  split; [by apply dict_get_None|]. split; [by apply dict_mem_false|].
  intros o Ho. rewrite <- Hget in Ho. split; [done|].
  apply dict_get_Some in Ho. apply (proj2 Hok) in Ho.
  unfold Component.isinstance. destruct (heap w' !! o) as [inst|]; [|done].
  injection Ho as ->. done.
Qed.

Lemma registry_keyed_by_exact_class_witness :
  ComponentManager.get_component 0%nat hunger_run.1.2 = None
  ∧ ComponentManager.has_component 0%nat hunger_run.1.2 = false
  ∧ ComponentManager.get_component 3%nat hunger_run.1.2 = Some 0%nat
  ∧ Component.isinstance demo_classes hunger_run.2 0%nat 0%nat = true.
Proof.
  destruct (registry_keyed_by_exact_class demo_classes 3%nat 0%nat "agent_9" None
              fresh_world hunger_run.2 [(3%nat, [])] hunger_run.1.1 hunger_run.1.2)
    as (Hget & Hhas & Hsub).
  - discriminate.
  - vm_compute. reflexivity.
  - repeat constructor. discriminate.
  - vm_compute. reflexivity.
  - destruct (Hsub 0%nat) as [Hs Hi]; [vm_compute; reflexivity|]. by repeat split.
Defined.

(** ** add_component and the subscription table *)

Lemma elem_of_tick_calls (classes : ClassId → ClassDef) (w : World) (h : ObjId) (e : Event) :
  (h, e) ∈ on_event_calls (since w (EventBus.tick (Component.on_event classes) w))
  ↔ e ∈ pending (bus w) ∧ h ∈ EventBus.recipients w e.
Proof.
  destruct (tick_spec _ (on_event_contract classes) w) as (t & L & D & _).
  rewrite (since_app _ _ _ L), D. apply elem_of_deliveries.
Qed.

Lemma add_component_no_subscribe (classes : ClassId → ClassDef) (T : ClassId)
    (args : list Value) (r : Exn + ObjId) (m m' : ComponentManager.t) (w w' : World) :
  ComponentManager.add_component classes T args m w = (r, m', w') →
  (∀ res, cls_init (classes T) (ComponentManager.mgr_agent_id m) args = inr res →
          init_subscribe res = []) →
  subscriptions (bus w') = subscriptions (bus w).
Proof.
  unfold ComponentManager.add_component, Component.new. intros Hadd Hnone.
  destruct (cls_init (classes T) (ComponentManager.mgr_agent_id m) args) as [ex|res].
  - by injection Hadd as _ _ <-.
  - rewrite (Hnone res eq_refl) in Hadd. cbn [foldl] in Hadd.
    set (w0 := with_heap _ w) in Hadd.
    destruct (extends_foldl_emits
                (λ wk c, Component.emit_event (length (heap w)) (emit_type c)
                           (emit_data c) (emit_priority c) (emit_target c) wk)
                (init_emit res)
                (λ wk c, extends_emit_event (length (heap w)) _ _ _ _ wk) w0)
      as (es & E & _).
    pose proof (ext_subscriptions _ _ _ E) as Hs.
    destruct (init_raised res); injection Hadd as _ _ <-; exact Hs.
Qed.

(** C10, as the code has it.  [add_component] makes no call on the bus of
    its own; what reaches the bus is what the constructor it runs does
    through [self.subscribe] and [self.emit_event].  So no call, whether it
    returns or raises, removes or reorders a registration: for every event
    type the handlers registered before are still registered, in the same
    order, and all that can follow them are registrations made by the
    constructor, for the instance under construction (when the constructor
    makes no [subscribe] call the subscription table is as it was).
    Instances that existed before are unchanged, so a replaced instance
    that was a recipient of an event still is one and is called when that
    event is delivered, while the registry now resolves the class to the
    new instance; a call that raises leaves the registry as it was. *)
Theorem add_component_keeps_registrations (classes : ClassId → ClassDef)
    (T : ClassId) (args : list Value) (r : Exn + ObjId)
    (m m' : ComponentManager.t) (w w' : World) :
  ComponentManager.add_component classes T args m w = (r, m', w') →
  (∀ ty, ∃ k, EventBus.handlers_for (bus w') ty
              = EventBus.handlers_for (bus w) ty ++ replicate k (length (heap w)))
  ∧ ((∀ res, cls_init (classes T) (ComponentManager.mgr_agent_id m) args = inr res →
             init_subscribe res = []) →
     subscriptions (bus w') = subscriptions (bus w))
  ∧ (∀ old, is_Some (heap w !! old) →
            old ≠ length (heap w) ∧ heap w' !! old = heap w !! old)
  ∧ (∀ old e, is_Some (heap w !! old) → old ∈ EventBus.recipients w e →
       old ∈ EventBus.recipients w' e
       ∧ (old, e) ∈ on_event_calls
                      (since (EventBus.emit e w')
                         (EventBus.tick (Component.on_event classes) (EventBus.emit e w'))))
  ∧ (∀ o, r = inr o →
       o = length (heap w)
       ∧ ∀ old, ComponentManager.get_component T m = Some old →
                is_Some (heap w !! old) →
                ComponentManager.get_component T m' = Some o ∧ o ≠ old)
  ∧ (∀ ex, r = inl ex → m' = m).
Proof.
  intros Hadd.
  pose proof (add_component_grows classes _ _ _ _ _ _ _ Hadd) as (Hlen & Hold & Hreg & _).
  assert (Hkeep : ∀ old, is_Some (heap w !! old) →
                         old ≠ length (heap w) ∧ heap w' !! old = heap w !! old).
  { intros old Hlive%lookup_lt_is_Some. split; [lia|by apply Hold]. }
  assert (Hrec : ∀ old e, is_Some (heap w !! old) →
                          old ∈ EventBus.recipients w e → old ∈ EventBus.recipients w' e).
  { intros old e Hlive [Hh Haddr]%elem_of_recipients. apply elem_of_recipients. split.
    - destruct (Hreg (type e)) as [k ->]. apply elem_of_app. by left.
    - unfold owner in *. by rewrite (proj2 (Hkeep old Hlive)). }
  split; [done|]. split.
  { exact (add_component_no_subscribe classes T args r m m' w w' Hadd). }
  split; [done|]. split; [|split].
  - intros old e Hlive Hin. split; [by apply Hrec|].
    apply elem_of_tick_calls. split.
    + cbn. apply elem_of_app. right. apply list_elem_of_here.
    + change (EventBus.recipients (EventBus.emit e w') e)
        with (EventBus.recipients w' e). by apply Hrec.
  - intros o ->.
    pose proof (add_component_ok classes _ _ _ _ _ _ _ Hadd) as (Ho & _).
    split; [done|]. intros old Hget Hlive. split.
    + rewrite (get_component_add classes T _ _ _ _ _ _ _ Hadd). cbn.
      by rewrite decide_True.
    + rewrite Ho. intros Heq. destruct (Hkeep _ Hlive) as [Hne _]. by apply Hne.
  - intros ex ->. by apply add_component_err in Hadd as [-> _].
Qed.

Lemma add_component_keeps_registrations_witness :
  (0%nat, ping 5 "all")
  ∈ on_event_calls
      (since (EventBus.emit (ping 5 "all") replaced_run.2)
         (EventBus.tick (Component.on_event demo_classes)
            (EventBus.emit (ping 5 "all") replaced_run.2)))
  ∧ ComponentManager.get_component 0%nat replaced_run.1.2 = Some 2%nat.
Proof.
  destruct (add_component_keeps_registrations demo_classes 0%nat [] (inr 2%nat)
              agent_7_world.1 replaced_run.1.2 agent_7_world.2 replaced_run.2
              ltac:(vm_compute; reflexivity)) as (_ & _ & _ & Hdel & Hget & _).
  split.
  - apply Hdel.
    + vm_compute. by eexists.
    + vm_compute. apply list_elem_of_here.
  - apply (proj2 (Hget 2%nat eq_refl) 0%nat).
    + vm_compute. reflexivity.
    + vm_compute. by eexists.
Defined.

(** C10 as stated does not hold: with a class whose constructor subscribes,
    replacing the instance of "agent_7" changes the subscription table, the
    new instance being registered behind the old one. *)
Lemma add_component_modifies_subscriptions :
  ComponentManager.get_component 0%nat agent_7_world.1 = Some 0%nat
  ∧ EventBus.handlers_for (bus agent_7_world.2) "ping" = [0%nat]
  ∧ EventBus.handlers_for (bus replaced_run.2) "ping" = [0%nat; 2%nat]
  ∧ subscriptions (bus replaced_run.2) ≠ subscriptions (bus agent_7_world.2).
Proof.
  split; [vm_compute; reflexivity|]. split; [vm_compute; reflexivity|].
  split; [vm_compute; reflexivity|].
  intros Heq. apply (f_equal (λ tbl, tbl !! "ping")) in Heq.
  vm_compute in Heq. discriminate.
Qed.

(** ** emit_event *)

(** C7. [emit_event(event_type, data, priority, target)] hands exactly one
    event to [EventBus.emit]: its type is [event_type], its source the
    agent id of the component, its timestamp the bus clock at the moment of
    the call, target and priority as passed or "all" and 5, and its data
    the mapping passed or an empty mapping for [None]. *)
Theorem emit_event_builds_event (self : ObjId) (inst : Instance)
    (event_type : string) (d : option (gmap string Value)) (p : option Z)
    (tg : option string) (w : World) :
  heap w !! self = Some inst →
  let w' := Component.emit_event self event_type d p tg w in
  ∃ event,
    w' = EventBus.emit event w
    ∧ emit_calls (since w w') = [event]
    ∧ pending (bus w') = pending (bus w) ++ [event]
    ∧ type event = event_type
    ∧ source event = agent_id inst
    ∧ timestamp event = EventBus.get_current_time w
    ∧ target event = match tg with Some t => t | None => "all" end
    ∧ priority event = match p with Some n => n | None => 5 end
    ∧ data event = match d with Some payload => payload | None => ∅ end.
Proof.
  intros Hself w'. unfold w', Component.emit_event. rewrite Hself.
  eexists. split; [reflexivity|]. split.
  { erewrite since_app by (cbn; reflexivity). reflexivity. }
  split; [reflexivity|]. cbn.
  repeat split; try done; by destruct tg || by destruct p.
Qed.

Lemma emit_event_builds_event_witness :
  emit_calls
    (since agent_7_world.2
       (Component.emit_event 0%nat "need_critical" None (Some 1) None agent_7_world.2))
  = [ {| type := "need_critical"; source := "agent_7"; target := "all";
         data := ∅; priority := 1; timestamp := 0 |} ].
Proof.
  destruct (emit_event_builds_event 0%nat _
              "need_critical" None (Some 1) None agent_7_world.2
              ltac:(vm_compute; reflexivity))
    as (event & _ & Hcalls & _ & Hty & Hsrc & Hts & Htg & Hp & Hd).
  rewrite Hcalls. destruct event as [ty src tgt dat prio ts]. cbn in *.
  subst. vm_compute. reflexivity.
Defined.

(** ** Loops over the components *)

Section ForEach.

Context {A B : Type}.
Context (body : A → World → option Exn * World).
Context (proj : list Call → list B) (g : A → option B).
(** [I] holds along the run, and while it holds a round logs what [g] says. *)
Context (I : World → Prop).
Hypothesis proj_app : ∀ t1 t2, proj (t1 ++ t2) = proj t1 ++ proj t2.
Hypothesis body_log : ∀ x w, I w →
  I (body x w).2 ∧
  ∃ t, trace (body x w).2 = trace w ++ t ∧ proj t = option_list (g x).

Lemma omap_snoc (l : list A) (x : A) :
  omap g (l ++ [x]) = omap g l ++ option_list (g x).
Proof. rewrite omap_app. cbn. by destruct (g x). Qed.

Lemma for_each_log (l : list A) (w : World) :
  I w →
  I (for_each body l w).2 ∧
  ∃ t, trace (for_each body l w).2 = trace w ++ t ∧
       match (for_each body l w).1 with
       | None => proj t = omap g l
       | Some ex =>
           ∃ l1 x l2 wx,
             l = l1 ++ x :: l2 ∧
             for_each body l1 w = (None, wx) ∧
             body x wx = (Some ex, (for_each body l w).2) ∧
             proj t = omap g (l1 ++ [x])
       end.
Proof.
  revert w. induction l as [|x l IH]; intros w Hw; cbn.
  - split; [done|]. exists []. split; [by rewrite app_nil_r|].
    change (proj [] = []). pose proof (proj_app [] []) as H0. cbn in H0.
    destruct (proj []); [done|]. apply (f_equal length) in H0.
    rewrite length_app in H0. cbn in H0. lia.
  - destruct (body_log x w Hw) as (Hw1 & t1 & L1 & P1).
    destruct (body x w) as [[ex|] w1] eqn:Hbody; cbn in *.
    + split; [done|]. exists t1. split; [done|].
      exists [], x, l, w. by repeat split.
    + destruct (IH w1 Hw1) as (Hw2 & t2 & L2 & P2). split; [done|].
      exists (t1 ++ t2). split; [by rewrite L2, L1, app_assoc|].
      destruct (for_each body l w1) as [[ex|] w2]; cbn in *.
      * destruct P2 as (l1 & y & l2 & wy & -> & Hl1 & Hy & P2).
        exists (x :: l1), y, l2, wy. split; [done|]. split; [cbn; by rewrite Hbody|].
        split; [done|]. rewrite proj_app, P1, P2. cbn. by destruct (g x).
      * rewrite proj_app, P1, P2. by destruct (g x).
Qed.


End ForEach.


(** ** The heap after a method call *)

Lemma heap_emit_event (self : ObjId) (event_type : string)
    (d : option (gmap string Value)) (p : option Z) (tg : option string) (w : World) :
  heap (Component.emit_event self event_type d p tg w) = heap w.
Proof. unfold Component.emit_event. by destruct (heap w !! self). Qed.

Lemma heap_foldl_emit_event (self : ObjId) (l : list EmitCall) (w : World) :
  heap (foldl (λ w c, Component.emit_event self (emit_type c) (emit_data c)
                        (emit_priority c) (emit_target c) w) w l)
  = heap w.
Proof.
  revert w. induction l as [|c l IH]; intros w; cbn; [done|].
  by rewrite IH, heap_emit_event.
Qed.

Lemma heap_perform (self : ObjId) (r : MethodResult) (w : World) :
  heap (Component.perform self r w).2
  = alter (Component.set_attrs (new_attrs r)) self (heap w).
Proof. unfold Component.perform. cbn. by rewrite heap_foldl_emit_event. Qed.

(** ** ComponentManager.tick *)



Section Tick.

Context (classes : ClassId → ClassDef) (delta_time : float).



(** While the ticks leave the manager alone, the loop over the live
    dictionary is the loop over the components it held at the start. *)
Lemma tick_from_for_each (I : World → Prop) (m : ComponentManager.t) :
  (∀ c wk, c ∈ ComponentManager.get_all_components m → I wk →
     (ComponentManager.tick_component classes c delta_time m wk).1.2 = m
     ∧ I (ComponentManager.tick_component classes c delta_time m wk).2) →
  ∀ remaining i w,
    I w →
    (remaining + i = length (ComponentManager._components m))%nat →
    ComponentManager.tick_from classes remaining i
      (length (ComponentManager._components m)) delta_time m w
    = ((for_each (ticked classes delta_time m)
          (drop i (ComponentManager.get_all_components m)) w).1,
       m,
       (for_each (ticked classes delta_time m)
          (drop i (ComponentManager.get_all_components m)) w).2).
Proof.
  intros Hstep. unfold ComponentManager.get_all_components, dict_values in *.
  induction remaining as [|k IH]; intros i w Hw Hlen; cbn [ComponentManager.tick_from];
    rewrite decide_True by done; unfold dict_values.
  - rewrite drop_ge by (rewrite length_fmap; lia). done.
  - destruct ((ComponentManager._components m).*2 !! i) as [c|] eqn:Hc.
    + rewrite (drop_S _ _ _ Hc). cbn [for_each].
      destruct (Hstep c w (list_elem_of_lookup_2 _ _ _ Hc) Hw) as [Hm Hw'].
      unfold ticked at 1 3.
      destruct (ComponentManager.tick_component classes c delta_time m w)
        as [[x m'] w'] eqn:Htick. cbn in Hm, Hw'. subst m'.
      cbn [fst snd]. destruct x as [ex|]; [reflexivity|].
      apply IH; [done|lia].
    + apply lookup_ge_None in Hc. rewrite length_fmap in Hc. lia.
Qed.

Lemma tick_for_each (I : World → Prop) (m : ComponentManager.t) (w : World) :
  (∀ c wk, c ∈ ComponentManager.get_all_components m → I wk →
     (ComponentManager.tick_component classes c delta_time m wk).1.2 = m
     ∧ I (ComponentManager.tick_component classes c delta_time m wk).2) →
  I w →
  ComponentManager.tick classes delta_time m w
  = ((for_each (ticked classes delta_time m)
        (ComponentManager.get_all_components m) w).1,
     m,
     (for_each (ticked classes delta_time m)
        (ComponentManager.get_all_components m) w).2).
Proof.
  intros Hstep Hw. unfold ComponentManager.tick.
  rewrite (tick_from_for_each I m Hstep) by (done || lia). by rewrite drop_0.
Qed.




End Tick.





(** ** ComponentManager.deserialize *)

Lemma for_each_ext {A : Type} (I : World → Prop)
    (body body' : A → World → option Exn * World) (l : list A) (w : World) :
  I w →
  (∀ x w, I w → I (body x w).2) →
  (∀ x w, x ∈ l → I w → body' x w = body x w) →
  for_each body' l w = for_each body l w.
Proof.
  intros Hw Hstep Hsame. revert w Hw. induction l as [|x l IH]; intros w Hw; cbn; [done|].
  rewrite (Hsame x w) by (done || apply list_elem_of_here).
  pose proof (Hstep x w Hw) as Hw1.
  destruct (body x w) as [[ex|] w1]; [done|]. cbn in Hw1.
  apply IH; [|done]. intros y w' Hy. apply Hsame. by apply list_elem_of_further.
Qed.

Section Deserialize.

Context (classes : ClassId → ClassDef) (data : gmap string Value) (w : World).

Lemma during_start : during classes w data w.
Proof. by repeat split. Qed.

(** While [during] holds, a component has the name it had at the start. *)
Lemma during_name (wk : World) (c : ObjId) (inst' : Instance) :
  during classes w data wk →
  heap wk !! c = Some inst' →
  ∃ inst, heap w !! c = Some inst ∧
          Component.get_component_name classes inst'
          = Component.get_component_name classes inst.
Proof.
  intros (_ & Hcls & _) Hc. specialize (Hcls c). rewrite Hc in Hcls. cbn in Hcls.
  destruct (heap w !! c) as [inst|]; [|done].
  exists inst. split; [done|]. unfold Component.get_component_name.
  injection Hcls as ->. done.
Qed.

Lemma deserialize_one_log (c : ObjId) (wk : World) :
  during classes w data wk →
  during classes w data (ComponentManager.deserialize_one classes data c wk).2 ∧
  ∃ t, trace (ComponentManager.deserialize_one classes data c wk).2 = trace wk ++ t ∧
       deserialize_calls t = option_list (owed_to classes w data c).
Proof.
  intros Hd. unfold ComponentManager.deserialize_one, owed_to.
  destruct (heap wk !! c) as [inst'|] eqn:Hc.
  - destruct (during_name _ _ _ Hd Hc) as (inst & Hw & Hname).
    rewrite Hw, Hname. cbn.
    destruct (data !! Component.get_component_name classes inst) as [v|] eqn:Hv; cbn.
    + split.
      * destruct Hd as (Hlen & Hcls & Hkeep). unfold Component.deserialize.
        change (heap (log (CallDeserialize c v) wk) !! c) with (heap wk !! c).
        rewrite Hc. split; [|split].
        -- rewrite heap_perform. cbn. by rewrite length_alter.
        -- intros c0. rewrite heap_perform. cbn. rewrite <- Hcls.
           by apply lookup_alter_keeps.
        -- intros c0 inst0 Hw0 Hnone. rewrite heap_perform. cbn.
           destruct (decide (c = c0)) as [->|Hne].
           ++ rewrite Hw in Hw0. injection Hw0 as ->. congruence.
           ++ rewrite list_lookup_alter_ne by done. by apply Hkeep.
      * unfold Component.deserialize.
        destruct (extends_method (CallDeserialize c v) c wk
                    (λ i, cls_deserialize (classes (inst_class i)) i v) eq_refl)
          as (es & E & _).
        exists ([CallDeserialize c v] ++ (CallEmit <$> es)). split; [apply E|].
        by rewrite deserialize_calls_app, deserialize_calls_emits.
    + split; [done|]. exists []. by rewrite app_nil_r.
  - assert (Hw : heap w !! c = None).
    { destruct Hd as (_ & Hcls & _). specialize (Hcls c). rewrite Hc in Hcls.
      by destruct (heap w !! c). }
    rewrite Hw. cbn. split; [done|]. exists []. by rewrite app_nil_r.
Qed.

End Deserialize.

(** C5. [ComponentManager.deserialize(data)] calls [deserialize] only on
    components the manager owns, each with the entry of [data] under its
    [get_component_name()]; when none of them raises, these are all the
    owned components whose name is a key.  It allocates nothing, a
    component whose name is not a key of [data] is left as it was, and keys
    of [data] that name no owned component play no role: any [data'] that
    agrees with [data] on the names of the owned components gives the same
    result. *)
Theorem manager_deserialize_present_only (classes : ClassId → ClassDef)
    (data : gmap string Value) (m : ComponentManager.t) (w : World) :
  let r := ComponentManager.deserialize classes data m w in
  let components := ComponentManager.get_all_components m in
  let called := deserialize_calls (since w r.2) in
  (r.1 = None → called = owed_deserialize classes w data components)
  ∧ (∀ c v, (c, v) ∈ called →
       c ∈ components
       ∧ ∃ inst, heap w !! c = Some inst
                 ∧ data !! Component.get_component_name classes inst = Some v)
  ∧ length (heap r.2) = length (heap w)
  ∧ (∀ c inst, heap w !! c = Some inst →
               data !! Component.get_component_name classes inst = None →
               heap r.2 !! c = Some inst)
  ∧ (∀ data',
       (∀ c inst, c ∈ components → heap w !! c = Some inst →
                  data' !! Component.get_component_name classes inst
                  = data !! Component.get_component_name classes inst) →
       ComponentManager.deserialize classes data' m w = r).
Proof.
  intros r components called.
  destruct (for_each_log (ComponentManager.deserialize_one classes data)
              deserialize_calls (owed_to classes w data) (during classes w data)
              deserialize_calls_app (deserialize_one_log classes data w)
              components w (during_start classes data w))
    as (Hend & t & L & Hcalls).
  change (for_each _ components w) with r in Hend, L, Hcalls.
  assert (Hcalled : called = deserialize_calls t).
  { unfold called. f_equal. apply since_app. exact L. }
  assert (Howed : ∀ (l : list ObjId) c v, (c, v) ∈ omap (owed_to classes w data) l →
            c ∈ l ∧ ∃ inst, heap w !! c = Some inst
                            ∧ data !! Component.get_component_name classes inst = Some v).
  { intros l c v (c' & Hc' & Ho)%list_elem_of_omap. unfold owed_to in Ho.
    destruct (heap w !! c') as [inst|] eqn:Hw; [|done]. cbn in Ho.
    destruct (data !! Component.get_component_name classes inst) as [v'|] eqn:Hv; [|done].
    injection Ho as <- <-. split; [done|]. rewrite Hw. by exists inst. }
  split; [|split; [|split; [|split]]].
  - intros Hnone. rewrite Hnone in Hcalls. by rewrite Hcalled.
  - intros c v. rewrite Hcalled. destruct r.1 as [ex|].
    + destruct Hcalls as (l1 & x & l2 & wx & Hsplit & _ & _ & ->).
      intros [Hin Hinst]%Howed. split; [|done].
      rewrite Hsplit. rewrite elem_of_app in Hin. rewrite elem_of_app, elem_of_cons.
      destruct Hin as [?|?%list_elem_of_singleton]; auto.
    + rewrite Hcalls. apply Howed.
  - apply Hend.
  - apply Hend.
  - intros data' Hagree. unfold r, ComponentManager.deserialize.
    change (dict_values (ComponentManager._components m)) with components.
    apply (for_each_ext (during classes w data)); [apply during_start| |].
    + intros x wk Hwk. by apply deserialize_one_log.
    + intros x wk Hx Hwk. unfold ComponentManager.deserialize_one.
      destruct (heap wk !! x) as [inst'|] eqn:Hc; [|done].
      destruct (during_name _ _ _ _ _ _ Hwk Hc) as (inst & Hw & Hname).
      by rewrite Hname, (Hagree x inst Hx Hw).
Qed.

Lemma manager_deserialize_present_only_witness :
  let data : gmap string Value := {["Needs" := VInt 7; "Ghost" := VInt 1]} in
  let r := ComponentManager.deserialize demo_classes data
             agent_7_world.1 agent_7_world.2 in
  deserialize_calls (since agent_7_world.2 r.2) = [(0%nat, VInt 7)]
  ∧ heap r.2 !! 1%nat = heap agent_7_world.2 !! 1%nat.
Proof.
  intros data r.
  destruct (manager_deserialize_present_only demo_classes data
              agent_7_world.1 agent_7_world.2) as (Hcalls & _ & _ & Hkeep & _).
  split.
  - etransitivity; [apply Hcalls|]; vm_compute; reflexivity.
  - transitivity (Some (mkInstance 1%nat "agent_7" None [] {["energy" := VInt 1]})).
    + apply Hkeep; vm_compute; reflexivity.
    + vm_compute. reflexivity.
Defined.

(** * Further properties of the component layer *)

(** ** Component.subscribe *)

(** X1. [subscribe(event_types)] appends [event_types] as given, repeated
    types included, to the [subscribed_events] of the component and leaves
    its other fields and all other instances alone; on the bus the handler
    of the component is registered behind the handlers each of the types
    already had, and queue and clock are untouched. *)
Theorem subscribe_records_types (self : ObjId) (inst : Instance)
    (event_types : list string) (w : World) :
  heap w !! self = Some inst →
  let w' := Component.subscribe self event_types w in
  (∃ inst', heap w' !! self = Some inst'
            ∧ subscribed_events inst' = subscribed_events inst ++ event_types
            ∧ inst_class inst' = inst_class inst
            ∧ agent_id inst' = agent_id inst
            ∧ agent inst' = agent inst
            ∧ attrs inst' = attrs inst)
  ∧ (∀ c, c ≠ self → heap w' !! c = heap w !! c)
  ∧ (∀ ty, EventBus.handlers_for (bus w') ty
           = EventBus.handlers_for (bus w) ty
             ++ (if decide (ty ∈ event_types) then [self] else []))
  ∧ pending (bus w') = pending (bus w)
  ∧ current_time (bus w') = current_time (bus w)
  ∧ trace w' = trace w.
Proof.
  intros Hself w'. split; [|split; [|split]].
  - exists (Component.extend_subscribed event_types inst). split; [|done].
    unfold w', Component.subscribe. cbn.
    by rewrite list_lookup_alter_eq, Hself.
  - intros c Hc. unfold w', Component.subscribe. cbn.
    by rewrite list_lookup_alter_ne.
  - intros ty. apply (handlers_for_subscribe event_types self w ty).
  - done.
Qed.

Lemma subscribe_records_types_witness :
  subscribed_events
    <$> heap (Component.subscribe 0%nat ["pong"; "pong"] agent_7_world.2) !! 0%nat
  = Some ["ping"; "pong"; "pong"]
  ∧ EventBus.handlers_for
      (bus (Component.subscribe 0%nat ["pong"; "pong"] agent_7_world.2)) "pong"
    = [0%nat].
Proof.
  destruct (subscribe_records_types 0%nat _ ["pong"; "pong"] agent_7_world.2
              ltac:(vm_compute; reflexivity))
    as ((inst' & Hlook & Hsub & _) & _ & Hreg & _).
  split.
  - rewrite Hlook. cbn. rewrite Hsub. vm_compute. reflexivity.
  - rewrite Hreg. vm_compute. reflexivity.
Defined.

(** ** Looking components up *)

(** X2. [has_component] and [get_component] agree on every manager:
    [has_component(T)] is true exactly when [get_component(T)] returns an
    instance, and false exactly when it returns [None]. *)
Theorem has_component_iff_get (T : ClassId) (m : ComponentManager.t) :
  (ComponentManager.has_component T m = true
   ↔ ∃ o, ComponentManager.get_component T m = Some o)
  ∧ (ComponentManager.has_component T m = false
     ↔ ComponentManager.get_component T m = None).
Proof.
  unfold ComponentManager.has_component, ComponentManager.get_component.
  assert (Hf : dict_mem T (ComponentManager._components m) = false
               ↔ dict_get T (ComponentManager._components m) = None).
  { by rewrite dict_mem_false, dict_get_None. }
  split; [|done].
  destruct (dict_mem T (ComponentManager._components m)) eqn:Hm;
    destruct (dict_get T (ComponentManager._components m)) as [o|] eqn:Hg.
  - split; [by exists o|done].
  - destruct Hf as [_ Hf]. by specialize (Hf eq_refl).
  - destruct Hf as [Hf _]. by specialize (Hf eq_refl).
  - split; [done|by intros [o ?]].
Qed.

(** ** The iteration order of the registry *)

Lemma dict_set_new {K V : Type} `{EqDecision K} (k : K) (v : V) (d : list (K * V)) :
  k ∉ dict_keys d → dict_set k v d = d ++ [(k, v)].
Proof.
  unfold dict_keys. induction d as [|[k' v'] d IH]; cbn; [done|].
  intros [Hne Hd]%not_elem_of_cons. rewrite decide_False by congruence.
  by rewrite IH.
Qed.

Lemma dict_set_old {K V : Type} `{EqDecision K} (k : K) (v v0 : V)
    (d : list (K * V)) (i : nat) :
  NoDup (dict_keys d) → d !! i = Some (k, v0) → dict_set k v d = <[i := (k, v)]> d.
Proof.
  unfold dict_keys. revert i. induction d as [|[k' v'] d IH]; intros i; [done|].
  rewrite fmap_cons. intros [Hk' Hd]%NoDup_cons Hi. cbn.
  destruct i as [|i]; cbn in *.
  - injection Hi as -> ->. by rewrite decide_True.
  - rewrite decide_False.
    + by rewrite (IH i).
    + intros ->. apply Hk'. apply list_elem_of_fmap. exists (k, v0).
      split; [done|]. by eapply list_elem_of_lookup_2.
Qed.

(** X3. Where [add_component] puts the instance in the iteration order that
    [get_all_components], [tick], [serialize] and [deserialize] follow: a
    class that was not registered goes to the end; a class that was
    registered keeps its position and only the instance there is
    exchanged, so a replacement never moves a component. *)
Theorem add_component_iteration_order (classes : ClassId → ClassDef)
    (T : ClassId) (args : list Value) (m m' : ComponentManager.t)
    (w w' : World) (o : ObjId) :
  NoDup (dict_keys (ComponentManager._components m)) →
  ComponentManager.add_component classes T args m w = (inr o, m', w') →
  (ComponentManager.has_component T m = false →
     ComponentManager.get_all_components m'
     = ComponentManager.get_all_components m ++ [o]
     ∧ dict_keys (ComponentManager._components m')
       = dict_keys (ComponentManager._components m) ++ [T])
  ∧ (∀ i old, ComponentManager._components m !! i = Some (T, old) →
       ComponentManager.get_all_components m'
       = <[i := o]> (ComponentManager.get_all_components m)
       ∧ dict_keys (ComponentManager._components m')
         = dict_keys (ComponentManager._components m)).
Proof.
  intros Hnd (_ & Hc & _)%add_component_ok.
  unfold ComponentManager.get_all_components, dict_values, dict_keys in *.
  rewrite Hc. split.
  - intros Habsent%dict_mem_false. rewrite dict_set_new by done.
    by rewrite !fmap_app.
  - intros i old Hi. rewrite (dict_set_old T o old _ i Hnd Hi).
    rewrite !list_fmap_insert. cbn. split; [done|].
    apply list_insert_id. by rewrite list_lookup_fmap, Hi.
Qed.

Lemma add_component_iteration_order_witness :
  ComponentManager.get_all_components agent_7_world.1 = [0%nat; 1%nat]
  ∧ ComponentManager.get_all_components replaced_run.1.2 = [2%nat; 1%nat].
Proof.
  split; [vm_compute; reflexivity|].
  destruct (add_component_iteration_order demo_classes 0%nat []
              agent_7_world.1 replaced_run.1.2 agent_7_world.2 replaced_run.2 2%nat)
    as [_ Hold].
  - vm_compute. repeat constructor; rewrite ?elem_of_cons, ?elem_of_nil; intuition discriminate.
  - vm_compute. reflexivity.
  - destruct (Hold 0%nat 0%nat) as [Hvals _]; [vm_compute; reflexivity|].
    rewrite Hvals. vm_compute. reflexivity.
Defined.

(** ** Construction errors *)

Lemma foldl_subscribe_registered (self : ObjId) (calls : list (list string))
    (tys : list string) (ty : string) (w : World) :
  tys ∈ calls → ty ∈ tys →
  self ∈ EventBus.handlers_for
           (bus (foldl (λ wk event_types, Component.subscribe self event_types wk) w calls))
           ty.
Proof.
  revert w. induction calls as [|tys0 calls IH]; intros w Hin Hty;
    [by apply elem_of_nil in Hin|].
  cbn [foldl]. apply elem_of_cons in Hin as [<-|Hin]; [|by apply IH].
  destruct (reg_handlers _ _ _ _
              (registers_foldl_subscribe self calls (Component.subscribe self tys w)) ty)
    as [k ->].
  apply elem_of_app. left.
  change (bus (Component.subscribe self tys w))
    with (bus (EventBus.subscribe tys self w)).
  rewrite handlers_for_subscribe, decide_True by done.
  apply elem_of_app. right. apply list_elem_of_here.
Qed.

(** X4. A constructor that subscribes and then raises leaves a handler
    behind that no manager owns.  [add_component] raises the exception of
    the constructor and the registry is as it was, but the instance stays
    registered with the bus (modelled from its contract) for the types it
    subscribed to: it is a live instance, it is not among the components of
    the manager, and the next tick delivers a broadcast event of such a
    type to it. *)
Theorem add_component_construction_error (classes : ClassId → ClassDef)
    (T : ClassId) (args : list Value) (m : ComponentManager.t) (w : World)
    (res : InitResult) (ex : Exn) (tys : list string) (ty : string) :
  cls_init (classes T) (ComponentManager.mgr_agent_id m) args = inr res →
  init_raised res = Some ex →
  tys ∈ init_subscribe res → ty ∈ tys →
  (∀ o, o ∈ ComponentManager.get_all_components m → is_Some (heap w !! o)) →
  let run := ComponentManager.add_component classes T args m w in
  let orphan := length (heap w) in
  run.1.1 = inl ex
  ∧ run.1.2 = m
  ∧ (inst_class <$> heap run.2 !! orphan = Some T
     ∧ owner run.2 orphan = Some (ComponentManager.mgr_agent_id m))
  ∧ orphan ∈ EventBus.handlers_for (bus run.2) ty
  ∧ (orphan ∉ ComponentManager.get_all_components run.1.2)
  ∧ (∀ e, type e = ty → target e = "all" →
       (orphan, e) ∈ on_event_calls
                        (since (EventBus.emit e run.2)
                           (EventBus.tick (Component.on_event classes)
                              (EventBus.emit e run.2)))).
Proof.
  intros Hinit Hraised Htys Hty Hlive run orphan.
  set (inst := Component.set_attrs (init_attrs res)
                 (Component.__init__ T (ComponentManager.mgr_agent_id m))).
  set (w0 := with_heap (heap w ++ [inst]) w).
  set (w1 := foldl (λ wk event_types, Component.subscribe orphan event_types wk)
               w0 (init_subscribe res)).
  set (w2 := foldl (λ wk c, Component.emit_event orphan (emit_type c) (emit_data c)
                              (emit_priority c) (emit_target c) wk)
               w1 (init_emit res)).
  assert (Hrun : run = (inl ex, m, w2)).
  { unfold run, ComponentManager.add_component, Component.new.
    by rewrite Hinit, Hraised. }
  rewrite Hrun. cbn [fst snd].
  destruct (registers_foldl_emit orphan orphan (init_emit res) w1) as [es R2].
  fold w2 in R2.
  pose proof (registers_foldl_subscribe orphan (init_subscribe res) w0) as R1.
  fold w1 in R1.
  assert (Hreg : orphan ∈ EventBus.handlers_for (bus w2) ty).
  { destruct (reg_handlers _ _ _ _ R2 ty) as [k ->]. apply elem_of_app. left.
    by apply (foldl_subscribe_registered orphan (init_subscribe res) tys ty w0). }
  split; [done|]. split; [done|]. split; [|split; [done|split]].
  - rewrite (reg_class _ _ _ _ R2), (reg_class _ _ _ _ R1).
    rewrite (reg_owner _ _ _ _ R2), (reg_owner _ _ _ _ R1).
    unfold owner, w0, orphan. cbn. by rewrite list_lookup_middle.
  - intros Hin%Hlive%lookup_lt_is_Some. unfold orphan in Hin. lia.
  - intros e He Htarget. apply elem_of_tick_calls. split.
    + cbn. apply elem_of_app. right. apply list_elem_of_here.
    + apply elem_of_recipients. split; [by rewrite He|by left].
Qed.

Lemma add_component_construction_error_witness :
  leaky_run.1.1 = inl (Raised "ValueError")
  ∧ EventBus.handlers_for (bus leaky_run.2) "ping" = [0%nat; 2%nat]
  ∧ (2%nat ∉ ComponentManager.get_all_components leaky_run.1.2)
  ∧ (2%nat, ping 5 "all")
    ∈ on_event_calls
        (since (EventBus.emit (ping 5 "all") leaky_run.2)
           (EventBus.tick (Component.on_event demo_classes)
              (EventBus.emit (ping 5 "all") leaky_run.2))).
Proof.
  destruct (add_component_construction_error demo_classes 5%nat []
              agent_7_world.1 agent_7_world.2
              {| init_attrs := ∅; init_subscribe := [["ping"]];
                 init_emit := [mkEmitCall "created" None None None];
                 init_raised := Some (Raised "ValueError") |}
              (Raised "ValueError") ["ping"] "ping")
    as (Hr & _ & _ & _ & Hnot & Hdel).
  - reflexivity.
  - reflexivity.
  - apply list_elem_of_here.
  - apply list_elem_of_here.
  - intros o Ho. vm_compute in Ho.
    repeat (apply elem_of_cons in Ho as [->|Ho]; [vm_compute; by eexists|]).
    by apply elem_of_nil in Ho.
  - split; [exact Hr|]. split; [vm_compute; reflexivity|]. split; [exact Hnot|].
    by apply Hdel.
Defined.

(** ** The components a manager owns *)

Lemma dict_set_values_NoDup {K V : Type} `{EqDecision K} (k : K) (v : V)
    (d : list (K * V)) :
  NoDup d.*2 → v ∉ d.*2 → NoDup (dict_set k v d).*2.
Proof.
  induction d as [|[k' v'] d IH]; cbn.
  - intros _ _. apply NoDup_singleton.
  - intros [Hv' Hd]%NoDup_cons [Hne Hv]%not_elem_of_cons.
    destruct (decide (k' = k)) as [->|Hk]; cbn.
    + by apply NoDup_cons.
    + apply NoDup_cons. split; [|by apply IH].
      intros ([k0 v0] & Heq & Hin)%list_elem_of_fmap. cbn in Heq. subst v0.
      apply elem_of_dict_set in Hin as [[_ ->]|Hin]; [done|].
      apply Hv'. apply list_elem_of_fmap. by exists (k0, v').
Qed.

Lemma add_component_instance (classes : ClassId → ClassDef) (T : ClassId)
    (args : list Value) (m m' : ComponentManager.t) (w w' : World) (o : ObjId) :
  ComponentManager.add_component classes T args m w = (inr o, m', w') →
  ∃ inst, heap w' !! o = Some inst
          ∧ bound_to (ComponentManager.mgr_agent_id m) (ComponentManager.mgr_agent m) T inst.
Proof.
  unfold ComponentManager.add_component.
  destruct (Component.new classes T (ComponentManager.mgr_agent_id m) args w)
    as [[ex|c] w1] eqn:Hnew; [done|].
  intros [= <- <- <-]. apply new_ok in Hnew as (-> & inst0 & es & Hc & Ha & R).
  destruct R as [_ _ _ _ Hlen _ Hcls Hown]. cbn in *. unfold owner in Hown. cbn in Hown.
  rewrite list_lookup_middle in Hcls, Hown by done. cbn in Hcls, Hown.
  destruct (heap w1 !! length (heap w)) as [inst1|] eqn:H1; [|done].
  exists (Component.set_agent (ComponentManager.mgr_agent m) inst1). split.
  - by rewrite list_lookup_alter_eq, H1.
  - cbn in Hcls, Hown. injection Hcls as Hcls. injection Hown as Hown.
    unfold bound_to. cbn. by rewrite Hcls, Hown, Hc, Ha.
Qed.

(** Along a run of [add_component] calls on a new manager for [aid] and
    [a]: every entry holds a live instance that the run itself created and
    bound to the manager, no instance is filed twice, and the instances
    that existed before the run are untouched. *)
Lemma add_components_owned (classes : ClassId → ClassDef) (aid : string)
    (a : option ObjId) (w : World) (calls : list (ClassId * list Value)) :
  ∀ rs m w',
    add_components classes calls (ComponentManager.__init__ aid a) w = (rs, m, w') →
    ComponentManager.mgr_agent_id m = aid ∧ ComponentManager.mgr_agent m = a
    ∧ (length (heap w) ≤ length (heap w'))%nat
    ∧ (∀ h, (h < length (heap w))%nat → heap w' !! h = heap w !! h)
    ∧ (∀ T o, (T, o) ∈ ComponentManager._components m →
              (length (heap w) ≤ o < length (heap w'))%nat
              ∧ ∃ inst, heap w' !! o = Some inst ∧ bound_to aid a T inst)
    ∧ NoDup (ComponentManager._components m).*2.
Proof.
  induction calls as [|[T' args] calls IH] using rev_ind; intros rs m w' Hrun.
  - injection Hrun as <- <- <-. cbn. do 4 (split; [done|]).
    split; [by intros ? ? ?%elem_of_nil|apply NoDup_nil_2].
  - rewrite add_components_snoc in Hrun.
    destruct (add_components classes calls _ w) as [[rs1 m1] w1].
    destruct (ComponentManager.add_component classes T' args m1 w1)
      as [[r m2] w2] eqn:Hadd.
    injection Hrun as <- <- <-.
    destruct (IH _ _ _ eq_refl) as (Haid & Ha & Hlen & Hpre & Hown & Hnd).
    destruct r as [ex|o].
    { pose proof (add_component_grows _ _ _ _ _ _ _ _ Hadd) as (Hl2 & Hold & _).
      apply add_component_err in Hadd as [-> _].
      split; [done|]. split; [done|]. split; [lia|]. split.
      { intros h Hh. rewrite Hold by lia. by apply Hpre. }
      split; [|done]. intros T o Hin.
      destruct (Hown _ _ Hin) as (Hrange & inst1 & H1 & Hb1).
      split; [lia|]. exists inst1. split; [|done]. rewrite Hold by lia. done. }
    pose proof (add_component_instance _ _ _ _ _ _ _ _ Hadd) as (inst & Ho & Hb).
    pose proof (add_component_world _ _ _ _ _ _ _ _ Hadd) as (Hl2 & Hold & _).
    pose proof (add_component_ok _ _ _ _ _ _ _ _ Hadd) as (-> & Hc & Haid2 & Ha2 & _).
    rewrite Haid, Ha in *.
    split; [done|]. split; [done|]. split; [lia|]. split.
    { intros h Hh. rewrite Hold by lia. by apply Hpre. }
    split.
    + intros T o. rewrite Hc. intros [[-> ->]|Hin]%elem_of_dict_set.
      * split; [lia|]. by exists inst.
      * destruct (Hown _ _ Hin) as (Hrange & inst1 & H1 & Hb1).
        split; [lia|]. exists inst1. split; [|done]. rewrite Hold by lia. done.
    + rewrite Hc. apply dict_set_values_NoDup; [done|].
      intros ([T0 v] & Heq & Hin)%list_elem_of_fmap. cbn in Heq. subst v.
      destruct (Hown _ _ Hin) as (Hrange & _). lia.
Qed.

(** X5. After any run of [add_component] calls on a new manager, whatever
    [get_component(T)] returns is a live instance of exactly the class [T]
    that carries the agent id and the injected agent reference of the
    manager; [get_all_components] lists no instance twice and only
    instances that the manager created itself, and the instances that
    existed before are unchanged. *)
Theorem owned_components_bound (classes : ClassId → ClassDef) (aid : string)
    (a : option ObjId) (w w' : World) (calls : list (ClassId * list Value))
    (rs : list (Exn + ObjId)) (m : ComponentManager.t) :
  add_components classes calls (ComponentManager.__init__ aid a) w = (rs, m, w') →
  (∀ T o, ComponentManager.get_component T m = Some o →
     ∃ inst, heap w' !! o = Some inst
             ∧ inst_class inst = T ∧ agent_id inst = aid ∧ agent inst = a)
  ∧ NoDup (ComponentManager.get_all_components m)
  ∧ (∀ o, o ∈ ComponentManager.get_all_components m →
          (length (heap w) ≤ o < length (heap w'))%nat)
  ∧ (∀ h, (h < length (heap w))%nat → heap w' !! h = heap w !! h).
Proof.
  intros (_ & _ & _ & Hpre & Hown & Hnd)%add_components_owned.
  split; [|split; [done|split; [|done]]].
  - intros T o Hget%dict_get_Some. by destruct (Hown _ _ Hget) as (_ & inst & ? & ? & ? & ?); eauto.
  - intros o ([T v] & -> & Hin)%list_elem_of_fmap. by destruct (Hown _ _ Hin).
Qed.

Lemma owned_components_bound_witness :
  agent_id <$> heap agent_7_world.2 !! 1%nat = Some "agent_7"
  ∧ inst_class <$> heap agent_7_world.2 !! 1%nat = Some 1%nat.
Proof.
  destruct (owned_components_bound demo_classes "agent_7" None fresh_world
              agent_7_world.2 [(0%nat, []); (1%nat, [])]
              [inr 0%nat; inr 1%nat] agent_7_world.1
              ltac:(vm_compute; reflexivity)) as (Hget & _).
  destruct (Hget 1%nat 1%nat) as (inst & Hlook & Hcls & Haid & _);
    [vm_compute; reflexivity|].
  rewrite Hlook. cbn. by rewrite Hcls, Haid.
Defined.

(** X6. Events that a component owned by a manager emits are attributed to
    the agent of the manager: after any run of [add_component] calls, each
    [emit_event] of a component that [get_component] returns queues one
    event whose source is the agent id the manager was created with. *)
Theorem owned_component_emits_as_agent (classes : ClassId → ClassDef)
    (aid : string) (a : option ObjId) (w w' : World)
    (calls : list (ClassId * list Value)) (rs : list (Exn + ObjId))
    (m : ComponentManager.t) (T : ClassId) (o : ObjId)
    (event_type : string) (d : option (gmap string Value)) (p : option Z)
    (tg : option string) :
  add_components classes calls (ComponentManager.__init__ aid a) w = (rs, m, w') →
  ComponentManager.get_component T m = Some o →
  ∃ e, pending (bus (Component.emit_event o event_type d p tg w'))
       = pending (bus w') ++ [e]
       ∧ source e = aid ∧ type e = event_type
       ∧ timestamp e = current_time (bus w').
Proof.
  intros (_ & _ & _ & _ & Hown & _)%add_components_owned Hget%dict_get_Some.
  destruct (Hown _ _ Hget) as (_ & inst & Hlook & _ & Haid & _).
  unfold Component.emit_event. rewrite Hlook. eexists. split; [reflexivity|].
  by cbn.
Qed.

Lemma owned_component_emits_as_agent_witness :
  ∃ e, pending (bus (Component.emit_event 1%nat "moved" None None None agent_7_world.2))
       = pending (bus agent_7_world.2) ++ [e]
       ∧ source e = "agent_7" ∧ type e = "moved"
       ∧ timestamp e = current_time (bus agent_7_world.2).
Proof.
  apply (owned_component_emits_as_agent demo_classes "agent_7" None fresh_world
           agent_7_world.2 [(0%nat, []); (1%nat, [])] [inr 0%nat; inr 1%nat]
           agent_7_world.1 1%nat 1%nat).
  - vm_compute. reflexivity.
  - vm_compute. reflexivity.
Defined.

(** ** ComponentManager.serialize *)

Section Serialize.

Context (classes : ClassId → ClassDef) (w : World).

Lemma serialize_fold (n : string) (l : list ObjId) (acc : gmap string Value) :
  foldl (λ data component,
           match heap w !! component with
           | Some inst =>
               <[Component.get_component_name classes inst :=
                   Component.serialize classes component w]> data
           | None => data
           end) acc l !! n
  = match last (omap (serialized_as classes w n) l) with
    | Some v => Some v
    | None => acc !! n
    end.
Proof.
  revert acc. induction l as [|c l IH]; intros acc; [done|].
  cbn [foldl]. rewrite IH. cbn [omap list_omap]. unfold serialized_as at 2.
  destruct (heap w !! c) as [inst|]; cbn; [|done].
  destruct (decide (Component.get_component_name classes inst = n)) as [<-|Hne].
  - rewrite last_cons, lookup_insert_eq.
    by destruct (last (omap _ l)).
  - by rewrite lookup_insert_ne.
Qed.

Lemma serialized_as_none (n : string) (l : list ObjId) :
  n ∉ names_of classes w l → omap (serialized_as classes w n) l = [].
Proof.
  unfold names_of. induction l as [|c l IH]; [done|]. cbn. unfold serialized_as at 1.
  destruct (heap w !! c) as [inst|]; cbn; [|done].
  intros [Hne Hl]%not_elem_of_cons. rewrite decide_False by done. by apply IH.
Qed.

Lemma serialized_as_some (n : string) (l : list ObjId) :
  n ∈ names_of classes w l → ∃ v, last (omap (serialized_as classes w n) l) = Some v.
Proof.
  unfold names_of. induction l as [|c l IH]; cbn; [by intros ?%elem_of_nil|].
  unfold serialized_as at 1.
  destruct (heap w !! c) as [inst|]; cbn; [|done].
  intros [->|Hin]%elem_of_cons.
  - rewrite decide_True by done. rewrite last_cons.
    destruct (last (omap _ l)); eauto.
  - destruct (IH Hin) as [v Hv]. case_decide; [|eauto].
    rewrite last_cons, Hv. eauto.
Qed.

Lemma serialized_as_unique (l : list ObjId) (c : ObjId) (inst : Instance) :
  NoDup (names_of classes w l) → c ∈ l → heap w !! c = Some inst →
  omap (serialized_as classes w (Component.get_component_name classes inst)) l
  = [Component.serialize classes c w].
Proof.
  intros Hnd Hc Hinst. induction l as [|x l IH]; [by apply elem_of_nil in Hc|].
  unfold names_of in *. cbn in *. unfold serialized_as at 1.
  destruct (heap w !! x) as [instx|] eqn:Hx; cbn in *.
  - apply NoDup_cons in Hnd as [Hfresh Hnd].
    destruct (decide (x = c)) as [->|Hxc].
    + rewrite Hinst in Hx. injection Hx as <-. rewrite decide_True by done.
      by rewrite (serialized_as_none _ _ Hfresh).
    + apply elem_of_cons in Hc as [->|Hc]; [done|].
      rewrite decide_False; [by apply IH|].
      intros Heq. apply Hfresh. rewrite Heq.
      apply list_elem_of_omap. exists c. split; [done|]. by rewrite Hinst.
  - apply elem_of_cons in Hc as [->|Hc]; [congruence|]. by apply IH.
Qed.

End Serialize.

(** X7. [ComponentManager.serialize()] maps a name to the serialized state
    of the last owned component, in iteration order, that bears the name:
    when two owned components have the same [get_component_name()], the
    later one overwrites the earlier.  Its keys are exactly the names of
    the owned components, and when these names are distinct every
    component finds its own state under its own name. *)
Theorem manager_serialize_last_wins (classes : ClassId → ClassDef)
    (m : ComponentManager.t) (w : World) :
  let components := ComponentManager.get_all_components m in
  let data := ComponentManager.serialize classes m w in
  (∀ n, data !! n = last (omap (serialized_as classes w n) components))
  ∧ (∀ n, is_Some (data !! n) ↔ n ∈ names_of classes w components)
  ∧ (NoDup (names_of classes w components) →
     ∀ c inst, c ∈ components → heap w !! c = Some inst →
       data !! Component.get_component_name classes inst
       = Some (cls_serialize (classes (inst_class inst)) inst)).
Proof.
  intros components data.
  assert (Hlook : ∀ n, data !! n = last (omap (serialized_as classes w n) components)).
  { intros n. unfold data, ComponentManager.serialize.
    rewrite serialize_fold, lookup_empty.
    by destruct (last (omap _ _)). }
  split; [done|]. split.
  - intros n. rewrite Hlook. split.
    + intros [v Hv]. destruct (decide (n ∈ names_of classes w components)) as [|Hn]; [done|].
      by rewrite (serialized_as_none _ _ _ _ Hn) in Hv.
    + intros Hn. destruct (serialized_as_some _ _ _ _ Hn) as [v ->]. by eexists.
  - intros Hnd c inst Hc Hinst. rewrite Hlook.
    rewrite (serialized_as_unique _ _ _ _ _ Hnd Hc Hinst). cbn.
    unfold Component.serialize. by rewrite Hinst.
Qed.

Lemma manager_serialize_last_wins_witness :
  ComponentManager.serialize demo_classes agent_7_world.1 agent_7_world.2 !! "Body"
  = Some (VInt 1).
Proof.
  destruct (manager_serialize_last_wins demo_classes agent_7_world.1 agent_7_world.2)
    as (_ & _ & Hown).
  refine (eq_trans (Hown _ 1%nat (mkInstance 1%nat "agent_7" None [] {["energy" := VInt 1]}) _ _) _).
  - vm_compute. repeat constructor; rewrite ?elem_of_cons, ?elem_of_nil; intuition discriminate.
  - vm_compute. apply list_elem_of_further, list_elem_of_here.
  - vm_compute. reflexivity.
  - vm_compute. reflexivity.
Defined.

(** ** serialize and deserialize together *)

Lemma omap_all_Some {A B : Type} (f : A → option B) (g : A → B) (l : list A) :
  (∀ x, x ∈ l → f x = Some (g x)) → omap f l = g <$> l.
Proof.
  induction l as [|x l IH]; intros Hf; [done|]. cbn.
  rewrite (Hf x) by apply list_elem_of_here. cbn. f_equal.
  apply IH. intros y Hy. apply Hf. by apply list_elem_of_further.
Qed.

(** X8. Fed with what [serialize()] returned in the same world,
    [deserialize] hands every owned component exactly the value its own
    [serialize()] produced, in iteration order, provided the owned
    components are live, bear distinct names and none of the calls
    raises. *)
Theorem manager_deserialize_serialize (classes : ClassId → ClassDef)
    (m : ComponentManager.t) (w : World) :
  let components := ComponentManager.get_all_components m in
  let r := ComponentManager.deserialize classes
             (ComponentManager.serialize classes m w) m w in
  NoDup (names_of classes w components) →
  (∀ c, c ∈ components → is_Some (heap w !! c)) →
  r.1 = None →
  deserialize_calls (since w r.2)
  = (λ c, (c, Component.serialize classes c w)) <$> components.
Proof.
  intros components r Hnd Hlive Hnone.
  set (data := ComponentManager.serialize classes m w) in *.
  destruct (for_each_log (ComponentManager.deserialize_one classes data)
              deserialize_calls (owed_to classes w data) (during classes w data)
              deserialize_calls_app (deserialize_one_log classes data w)
              components w (during_start classes data w))
    as (_ & t & L & Hcalls).
  change (for_each _ components w) with r in L, Hcalls.
  rewrite Hnone in Hcalls. rewrite (since_app _ _ _ L), Hcalls.
  apply omap_all_Some. intros c Hc. unfold owed_to.
  destruct (Hlive c Hc) as [inst Hinst]. rewrite Hinst. cbn.
  assert (Hlook : data !! Component.get_component_name classes inst
                  = Some (Component.serialize classes c w)).
  { unfold data, ComponentManager.serialize.
    rewrite serialize_fold.
    change (dict_values (ComponentManager._components m)) with components.
    by rewrite (serialized_as_unique _ _ _ _ _ Hnd Hc Hinst). }
  by rewrite Hlook.
Qed.

Lemma manager_deserialize_serialize_witness :
  deserialize_calls
    (since agent_7_world.2
       (ComponentManager.deserialize demo_classes
          (ComponentManager.serialize demo_classes agent_7_world.1 agent_7_world.2)
          agent_7_world.1 agent_7_world.2).2)
  = [(0%nat, VInt 100); (1%nat, VInt 1)].
Proof.
  rewrite (manager_deserialize_serialize demo_classes agent_7_world.1 agent_7_world.2).
  - vm_compute. reflexivity.
  - vm_compute. repeat constructor; rewrite ?elem_of_cons, ?elem_of_nil; intuition discriminate.
  - intros c Hc. vm_compute in Hc.
    repeat (apply elem_of_cons in Hc as [->|Hc]; [vm_compute; by eexists|]).
    by apply elem_of_nil in Hc.
  - vm_compute. reflexivity.
Defined.

(** X9. [deserialize(data)] with a [data] in which no owned component finds
    its name, the empty mapping in particular, calls nothing and returns
    without an exception and without any effect. *)
Theorem manager_deserialize_no_match (classes : ClassId → ClassDef)
    (data : gmap string Value) (m : ComponentManager.t) (w : World) :
  (∀ c inst, c ∈ ComponentManager.get_all_components m →
             heap w !! c = Some inst →
             data !! Component.get_component_name classes inst = None) →
  ComponentManager.deserialize classes data m w = (None, w)
  ∧ ComponentManager.deserialize classes ∅ m w = (None, w).
Proof.
  assert (Hgen : ∀ (d : gmap string Value) (l : list ObjId),
            (∀ c inst, c ∈ l → heap w !! c = Some inst →
                       d !! Component.get_component_name classes inst = None) →
            for_each (ComponentManager.deserialize_one classes d) l w = (None, w)).
  { intros d l. induction l as [|c l IH]; intros Hd; [done|]. cbn.
    unfold ComponentManager.deserialize_one at 1.
    destruct (heap w !! c) as [inst|] eqn:Hc.
    - rewrite (Hd c inst) by (done || apply list_elem_of_here).
      apply IH. intros c' inst' Hc'. apply Hd. by apply list_elem_of_further.
    - apply IH. intros c' inst' Hc'. apply Hd. by apply list_elem_of_further. }
  intros Hdata. split.
  - by apply Hgen.
  - apply Hgen. intros c inst _ _. apply lookup_empty.
Qed.

Lemma manager_deserialize_no_match_witness :
  ComponentManager.deserialize demo_classes {["Ghost" := VInt 1]}
    agent_7_world.1 agent_7_world.2
  = (None, agent_7_world.2).
Proof.
  apply (manager_deserialize_no_match demo_classes {["Ghost" := VInt 1]}
           agent_7_world.1 agent_7_world.2).
  intros c inst Hc. vm_compute in Hc.
  repeat (apply elem_of_cons in Hc as [->|Hc];
          [vm_compute; intros [= <-]; vm_compute; reflexivity|]).
  by apply elem_of_nil in Hc.
Defined.

(** ** Ticking components *)

Lemma alter_set_attrs_id (h : list Instance) (c : ObjId) (inst : Instance) :
  h !! c = Some inst → alter (Component.set_attrs (attrs inst)) c h = h.
Proof.
  intros Hc. apply list_eq. intros i. destruct (decide (i = c)) as [->|Hne].
  - rewrite list_lookup_alter_eq, Hc. cbn. by destruct inst.
  - by rewrite list_lookup_alter_ne.
Qed.

Lemma default_tick_step (classes : ClassId → ClassDef) (delta_time : float)
    (m : ComponentManager.t) (c : ObjId) (wk : World) :
  (∀ inst, heap wk !! c = Some inst →
           cls_tick (classes (inst_class inst)) inst delta_time
           = Component.default_tick inst delta_time) →
  ComponentManager.tick_component classes c delta_time m wk
  = (None, m, log (CallTick c delta_time) wk).
Proof.
  intros Hdef. unfold ComponentManager.tick_component.
  change (heap (log (CallTick c delta_time) wk) !! c) with (heap wk !! c).
  destruct (heap wk !! c) as [inst|] eqn:Hc; [|done].
  rewrite (Hdef inst eq_refl). cbn.
  unfold with_heap. cbn. by rewrite (alter_set_attrs_id _ _ _ Hc).
Qed.

Lemma default_ticks_loop (classes : ClassId → ClassDef) (delta_time : float)
    (m : ComponentManager.t) (l : list ObjId) (wk : World) :
  (∀ c inst, c ∈ l → heap wk !! c = Some inst →
             cls_tick (classes (inst_class inst)) inst delta_time
             = Component.default_tick inst delta_time) →
  for_each (ticked classes delta_time m) l wk
  = (None,
     {| heap := heap wk;
        bus := bus wk;
        trace := trace wk ++ ((λ c, CallTick c delta_time) <$> l) |}).
Proof.
  revert wk. induction l as [|c l IH]; intros wk Hdef; cbn [for_each].
  - cbn. rewrite app_nil_r. by destruct wk.
  - unfold ticked at 1.
    rewrite (default_tick_step classes delta_time m c wk)
      by (intros inst; apply Hdef, list_elem_of_here).
    cbn [fst snd]. rewrite IH.
    + cbn. by rewrite <- app_assoc.
    + intros c' inst' Hc'. apply Hdef. by apply list_elem_of_further.
Qed.

(** X10. The [tick] of the base class does nothing.  If every live owned
    component has a class that keeps [Component.tick] as it is, then
    [ComponentManager.tick] returns without an exception and leaves the
    manager, the heap and the bus exactly as they were; all that happened
    is that each component was called once, in iteration order. *)
Theorem manager_tick_default_noop (classes : ClassId → ClassDef)
    (delta_time : float) (m : ComponentManager.t) (w : World) :
  (∀ c inst, c ∈ ComponentManager.get_all_components m →
             heap w !! c = Some inst →
             cls_tick (classes (inst_class inst)) inst delta_time
             = Component.default_tick inst delta_time) →
  ComponentManager.tick classes delta_time m w
  = (None,
     m,
     {| heap := heap w;
        bus := bus w;
        trace := trace w
                 ++ ((λ c, CallTick c delta_time)
                       <$> ComponentManager.get_all_components m) |}).
Proof.
  intros Hdef.
  rewrite (tick_for_each classes delta_time (λ wk, heap wk = heap w) m w);
    [|intros c wk Hc Hwk|done].
  - by rewrite (default_ticks_loop classes delta_time m _ w Hdef).
  - rewrite (default_tick_step classes delta_time m c wk); [done|].
    intros inst Hinst. rewrite Hwk in Hinst. by apply (Hdef c).
Qed.

Lemma manager_tick_default_noop_witness :
  let m := (add_components demo_classes [(0%nat, []); (3%nat, [])]
              (ComponentManager.__init__ "agent_3" None) fresh_world).1.2 in
  let w := (add_components demo_classes [(0%nat, []); (3%nat, [])]
              (ComponentManager.__init__ "agent_3" None) fresh_world).2 in
  heap (ComponentManager.tick demo_classes 1%float m w).2 = heap w
  ∧ bus (ComponentManager.tick demo_classes 1%float m w).2 = bus w.
Proof.
  intros m w.
  rewrite (manager_tick_default_noop demo_classes 1%float m w); [done|].
  intros c inst Hc. vm_compute in Hc.
  repeat (apply elem_of_cons in Hc as [->|Hc];
          [vm_compute; intros [= <-]; reflexivity|]).
  by apply elem_of_nil in Hc.
Defined.

(** ** From subscribing to being called *)

Lemma filter_handler_calls (x : ObjId) (e : Event) (hs : list ObjId) :
  x ∉ hs →
  filter (λ c : ObjId * Event, c.1 = x) ((λ h, (h, e)) <$> (hs ++ [x])) = [(x, e)].
Proof.
  induction hs as [|h hs IH].
  - intros _. rewrite app_nil_l, list_fmap_singleton.
    by rewrite filter_cons, decide_True.
  - intros [Hne Hx]%not_elem_of_cons. rewrite <- app_comm_cons, fmap_cons.
    rewrite filter_cons, decide_False by (cbn; congruence). by apply IH.
Qed.

Lemma filter_all {A : Type} (P : A → Prop) `{!∀ x, Decision (P x)} (l : list A) :
  (∀ x, P x) → filter P l = l.
Proof.
  intros HP. induction l as [|x l IH]; [done|].
  by rewrite filter_cons, decide_True, IH.
Qed.

(** X12. A component that subscribes to a type it was not yet registered
    for is called exactly once for a broadcast event of that type: after
    [x.subscribe(event_types)] and [y.emit_event(ty)] with [ty] among the
    types and an empty queue, the next tick of the bus calls [x.on_event]
    once, with the event that [y] built, and the clock is one step
    further.  The bus is the one modelled from its contract. *)
Theorem subscribe_emit_tick_once (classes : ClassId → ClassDef) (w : World)
    (x y : ObjId) (instx insty : Instance) (event_types : list string)
    (ty : string) (d : option (gmap string Value)) (p : option Z) :
  heap w !! x = Some instx →
  heap w !! y = Some insty →
  ty ∈ event_types →
  x ∉ EventBus.handlers_for (bus w) ty →
  pending (bus w) = [] →
  let w1 := Component.subscribe x event_types w in
  let w2 := Component.emit_event y ty d p None w1 in
  let w3 := EventBus.tick (Component.on_event classes) w2 in
  let e := {| type := ty;
              source := agent_id insty;
              target := "all";
              data := match d with Some payload => payload | None => ∅ end;
              priority := match p with Some n => n | None => 5 end;
              timestamp := current_time (bus w) |} in
  filter (λ c, c.1 = x) (on_event_calls (since w2 w3)) = [(x, e)]
  ∧ EventBus.get_current_time w3 = EventBus.get_current_time w + 1.
Proof.
  intros Hx Hy Hty Hfresh Hempty w1 w2 w3 e.
  assert (Hy1 : ∃ insty', heap w1 !! y = Some insty' ∧ agent_id insty' = agent_id insty).
  { unfold w1, Component.subscribe. cbn. destruct (decide (x = y)) as [->|Hne].
    - rewrite list_lookup_alter_eq, Hy. cbn. eexists. split; [done|].
      rewrite Hx in Hy. by injection Hy as ->.
    - rewrite list_lookup_alter_ne by done. by exists insty. }
  destruct Hy1 as (insty' & Hy1 & Haid).
  assert (Hw2 : w2 = EventBus.emit e w1).
  { unfold w2, Component.emit_event. rewrite Hy1. unfold e. rewrite Haid.
    by destruct p. }
  destruct (tick_spec _ (on_event_contract classes) w2) as (t & L & D & _ & _ & Ht & _).
  fold w3 in L, Ht. split.
  - rewrite (since_app _ _ _ L), D. unfold deliveries.
    assert (Hpend : pending (bus w2) = [e]).
    { rewrite Hw2. cbn. by rewrite Hempty. }
    rewrite Hpend. cbn. rewrite app_nil_r.
    assert (Hrec : EventBus.recipients w2 e = EventBus.handlers_for (bus w) ty ++ [x]).
    { unfold EventBus.recipients, EventBus.addressed_to.
      rewrite Hw2.
      change (bus (EventBus.emit e w1)) with
        {| subscriptions := subscriptions (bus w1);
           current_time := current_time (bus w1);
           pending := pending (bus w1) ++ [e];
           reports := reports (bus w1) |}.
      change (EventBus.handlers_for _ (type e)) with (EventBus.handlers_for (bus w1) ty).
      change (bus w1) with (bus (EventBus.subscribe event_types x w)).
      rewrite handlers_for_subscribe, decide_True by done.
      apply filter_all. by intros h. }
    rewrite Hrec. by apply filter_handler_calls.
  - unfold EventBus.get_current_time. rewrite Ht, Hw2. done.
Qed.

Lemma subscribe_emit_tick_once_witness :
  let w1 := Component.subscribe 1%nat ["moved"] agent_7_world.2 in
  let w2 := Component.emit_event 0%nat "moved" None None None w1 in
  let w3 := EventBus.tick (Component.on_event demo_classes) w2 in
  filter (λ c, c.1 = 1%nat) (on_event_calls (since w2 w3))
  = [(1%nat, {| type := "moved"; source := "agent_7"; target := "all";
                data := ∅; priority := 5; timestamp := 0 |})]
  ∧ EventBus.get_current_time w3 = 1.
Proof.
  intros w1 w2 w3.
  destruct (subscribe_emit_tick_once demo_classes agent_7_world.2 1%nat 0%nat
              (mkInstance 1%nat "agent_7" None [] {["energy" := VInt 1]})
              (mkInstance 0%nat "agent_7" None ["ping"] {["hunger" := VInt 100]})
              ["moved"] "moved" None None) as [Hcalls Htime].
  - vm_compute. reflexivity.
  - vm_compute. reflexivity.
  - apply list_elem_of_here.
  - vm_compute. apply not_elem_of_nil.
  - vm_compute. reflexivity.
  - split; [exact Hcalls|exact Htime].
Defined.

(** ** What components recorded and what the bus knows *)

Lemma subscriptions_recorded_subscribe (self : ObjId) (event_types : list string)
    (w : World) :
  is_Some (heap w !! self) →
  subscriptions_recorded w →
  subscriptions_recorded (Component.subscribe self event_types w).
Proof.
  intros [inst Hself] Hrec c ty.
  change (bus (Component.subscribe self event_types w))
    with (bus (EventBus.subscribe event_types self w)).
  rewrite handlers_for_subscribe, elem_of_app, (Hrec c ty).
  unfold Component.subscribe. cbn. destruct (decide (c = self)) as [->|Hne].
  - rewrite list_lookup_alter_eq, Hself. cbn. split.
    + intros [(i & [= <-] & Hin)|Hnew].
      * eexists. split; [done|]. cbn. apply elem_of_app. by left.
      * eexists. split; [done|]. cbn. apply elem_of_app. right.
        case_decide; [done|by apply elem_of_nil in Hnew].
    + intros (i & [= <-] & [Hin|Hin]%elem_of_app).
      * left. by exists inst.
      * right. rewrite decide_True by done. apply list_elem_of_here.
  - rewrite list_lookup_alter_ne by done. split.
    + intros [?|Hnew]; [done|]. case_decide; [|by apply elem_of_nil in Hnew].
      by apply list_elem_of_singleton in Hnew.
    + auto.
Qed.

Lemma subscriptions_recorded_foldl (self : ObjId) (calls : list (list string))
    (w : World) :
  is_Some (heap w !! self) →
  subscriptions_recorded w →
  subscriptions_recorded
    (foldl (λ w event_types, Component.subscribe self event_types w) w calls).
Proof.
  revert w. induction calls as [|tys calls IH]; intros w Hlive Hrec; [done|].
  cbn. apply IH.
  - apply lookup_lt_is_Some. rewrite (reg_length _ _ _ _ (registers_subscribe self tys w)).
    by apply lookup_lt_is_Some.
  - by apply subscriptions_recorded_subscribe.
Qed.

Lemma subscriptions_recorded_emits (self : ObjId) (l : list EmitCall) (w : World) :
  subscriptions_recorded w →
  subscriptions_recorded
    (foldl (λ w c, Component.emit_event self (emit_type c) (emit_data c)
                     (emit_priority c) (emit_target c) w) w l).
Proof.
  intros Hrec c ty.
  destruct (extends_foldl_emits
              (λ w c, Component.emit_event self (emit_type c) (emit_data c)
                        (emit_priority c) (emit_target c) w) l
              (λ w a, extends_emit_event self _ _ _ _ w) w) as (es & E & _).
  unfold EventBus.handlers_for. rewrite (ext_subscriptions _ _ _ E).
  rewrite heap_foldl_emit_event. apply Hrec.
Qed.

(** X13. The record a component keeps of its subscriptions and the table of
    the bus (modelled from its contract) stay in step.  If, for every
    instance, the handler is registered for a type exactly when the type is
    in its [subscribed_events], then this still holds after [subscribe] on
    a live component and after [add_component] with a constructor that
    reaches the bus through [self.subscribe] and [self.emit_event] only:
    whether the call returns the component or the constructor raises,
    before or after it subscribed. *)
Theorem subscriptions_stay_recorded (classes : ClassId → ClassDef) (w : World) :
  subscriptions_recorded w →
  (∀ self event_types, is_Some (heap w !! self) →
     subscriptions_recorded (Component.subscribe self event_types w))
  ∧ (∀ T args m,
       subscriptions_recorded
         (ComponentManager.add_component classes T args m w).2).
Proof.
  intros Hrec. split.
  - intros self tys Hlive. by apply subscriptions_recorded_subscribe.
  - intros T args m. unfold ComponentManager.add_component, Component.new.
    destruct (cls_init (classes T) (ComponentManager.mgr_agent_id m) args) as [ex|r];
      [done|].
    set (inst0 := Component.set_attrs (init_attrs r)
                    (Component.__init__ T (ComponentManager.mgr_agent_id m))).
    set (w0 := with_heap (heap w ++ [inst0]) w).
    assert (Hrec0 : subscriptions_recorded w0).
    { intros c ty. change (bus w0) with (bus w). rewrite (Hrec c ty). cbn. split.
      - intros (i & Hi & Hin). exists i. split; [|done]. by apply lookup_app_l_Some.
      - intros (i & Hi & Hin). exists i. split; [|done].
        apply lookup_app_Some in Hi as [?|[_ Hi]]; [done|].
        apply list_lookup_singleton_Some in Hi as [_ <-]. by apply elem_of_nil in Hin. }
    assert (Hlive0 : is_Some (heap w0 !! length (heap w))).
    { cbn. rewrite list_lookup_middle by done. by eexists. }
    pose proof (subscriptions_recorded_foldl (length (heap w)) (init_subscribe r)
                  w0 Hlive0 Hrec0) as Hrec1.
    set (w1 := foldl _ w0 (init_subscribe r)) in *.
    pose proof (subscriptions_recorded_emits (length (heap w)) (init_emit r)
                  w1 Hrec1) as Hrec2.
    set (w2 := foldl _ w1 (init_emit r)) in *.
    destruct (init_raised r) as [ex|]; [exact Hrec2|].
    cbn [snd]. intros c ty. change (bus (with_heap _ w2)) with (bus w2).
    rewrite (Hrec2 c ty). cbn.
    destruct (decide (c = length (heap w))) as [->|Hne].
    + rewrite list_lookup_alter_eq. destruct (heap w2 !! length (heap w)) as [i|]; cbn.
      * split; intros (i' & [= <-] & Hin); by eexists.
      * split; by intros (? & ? & ?).
    + by rewrite list_lookup_alter_ne.
Qed.

Lemma subscriptions_stay_recorded_witness :
  subscriptions_recorded agent_7_world.2.
Proof.
  change agent_7_world.2 with
    (ComponentManager.add_component demo_classes 1%nat []
       (ComponentManager.add_component demo_classes 0%nat []
          (ComponentManager.__init__ "agent_7" None) fresh_world).1.2
       (ComponentManager.add_component demo_classes 0%nat []
          (ComponentManager.__init__ "agent_7" None) fresh_world).2).2.
  apply (subscriptions_stay_recorded demo_classes).
  apply (subscriptions_stay_recorded demo_classes fresh_world).
  intros c ty. vm_compute. split.
  - by intros ?%elem_of_nil.
  - intros (i & Hi & _). destruct c; discriminate.
Defined.

(** ** Saving and restoring *)

Section Restore.

Context (classes : ClassId → ClassDef) (w0 : World) (data : gmap string Value).


End Restore.



(** ** The driver loop of debug_repro.py *)

Section Pump.

Context {St : Type} (is_busy : St → (Exn + bool) * St)
  (round : nat → St → option Exn * St).

(** The four ways one test of the loop condition can go. *)
Lemma pump_cases (n : nat) (s : St) :
  (∃ ex s1, is_busy s = (inl ex, s1)
            ∧ ∀ fuel, pump is_busy round (S fuel) n s = (Some ex, n, s1))
  ∨ (∃ b s1, is_busy s = (inr b, s1)
             ∧ (b || (n <? 40)%nat) && (n <? 100)%nat = false
             ∧ ∀ fuel, pump is_busy round (S fuel) n s = (None, n, s1))
  ∨ (∃ b s1 ex s2, is_busy s = (inr b, s1)
                   ∧ round n s1 = (Some ex, s2)
                   ∧ ∀ fuel, pump is_busy round (S fuel) n s = (Some ex, n, s2))
  ∨ (∃ b s1 s2, is_busy s = (inr b, s1)
                ∧ (b || (n <? 40)%nat) && (n <? 100)%nat = true
                ∧ round n s1 = (None, s2)
                ∧ ∀ fuel, pump is_busy round (S fuel) n s
                          = pump is_busy round fuel (S n) s2).
Proof.
  cbn [pump]. destruct (is_busy s) as [[ex|b] s1].
  - left. exists ex, s1. split; [done|by intros].
  - destruct ((b || (n <? 40)%nat) && (n <? 100)%nat) eqn:Hcond.
    + destruct (round n s1) as [[ex|] s2] eqn:Hround.
      * right. right. left. exists b, s1, ex, s2. repeat split; by intros.
      * right. right. right. exists b, s1, s2. repeat split; by intros.
    + right. left. exists b, s1. repeat split; by intros.
Qed.

Lemma pump_spec (fuel : nat) :
  ∀ n s, (n ≤ 100)%nat → (101 ≤ n + fuel)%nat →
    let r := pump is_busy round fuel n s in
    (n ≤ r.1.2 ≤ 100)%nat
    ∧ (r.1.1 = None → (n ≤ 40)%nat → (40 ≤ r.1.2)%nat)
    ∧ (∀ j, (j ≤ r.1.2 - n)%nat →
            (pump is_busy round j n s).1 = (None, (n + j)%nat))
    ∧ (∀ j, (n + j < r.1.2)%nat → (40 ≤ n + j)%nat →
            ∃ s1, is_busy (pump is_busy round j n s).2 = (inr true, s1))
    ∧ (r.1.1 = None →
       ∃ b, is_busy (pump is_busy round (r.1.2 - n) n s).2 = (inr b, r.2)
            ∧ ((r.1.2 < 100)%nat → b = false))
    ∧ (∀ ex, r.1.1 = Some ex →
         is_busy (pump is_busy round (r.1.2 - n) n s).2 = (inl ex, r.2)
         ∨ ∃ b s1, is_busy (pump is_busy round (r.1.2 - n) n s).2 = (inr b, s1)
                   ∧ round r.1.2 s1 = (Some ex, r.2))
    ∧ (∀ fuel', (101 ≤ n + fuel')%nat → pump is_busy round fuel' n s = r).
Proof.
  induction fuel as [|fuel IH]; intros n s Hn Hfuel; [lia|].
  assert (Hzero : ∀ j, (j ≤ 0)%nat →
            (pump is_busy round j n s).1 = (None, (n + j)%nat)).
  { intros j Hj. assert (j = 0)%nat as -> by lia. cbn. by rewrite Nat.add_0_r. }
  assert (Hsame : ∀ x : option Exn * nat * St,
            (∀ f, pump is_busy round (S f) n s = x) →
            ∀ fuel', (101 ≤ n + fuel')%nat → pump is_busy round fuel' n s = x).
  { intros x Hx [|f] Hf; [lia|apply Hx]. }
  destruct (pump_cases n s)
    as [(ex & s1 & Hb & Hp)|[(b & s1 & Hb & Hcond & Hp)
        |[(b & s1 & ex & s2 & Hb & Hr & Hp)|(b & s1 & s2 & Hb & Hcond & Hr & Hp)]]];
    cbv zeta; rewrite (Hp fuel).
  - cbn [fst snd]. replace (n - n)%nat with 0%nat by lia. cbn [pump snd].
    split; [lia|]. split; [done|]. split; [exact Hzero|]. split; [intros; lia|].
    split; [done|]. split; [|by apply Hsame].
    intros ? [= <-]. by left.
  - cbn [fst snd]. replace (n - n)%nat with 0%nat by lia. cbn [pump snd].
    split; [lia|]. split.
    { intros _ H40. destruct (Nat.ltb_spec n 40); [|lia].
      destruct (Nat.ltb_spec n 100); [|lia].
      by rewrite orb_true_r in Hcond. }
    split; [exact Hzero|]. split; [intros; lia|]. split.
    { intros _. exists b. split; [done|]. intros Hlt.
      destruct (Nat.ltb_spec n 100); [|lia]. rewrite andb_true_r in Hcond.
      by apply orb_false_elim in Hcond as [-> _]. }
    split; [done|]. by apply Hsame.
  - cbn [fst snd]. replace (n - n)%nat with 0%nat by lia. cbn [pump snd].
    split; [lia|]. split; [done|]. split; [exact Hzero|]. split; [intros; lia|].
    split; [done|]. split; [|by apply Hsame].
    intros ? [= <-]. right. by exists b, s1.
  - apply andb_prop in Hcond as [Hor Hlt]. apply Nat.ltb_lt in Hlt.
    destruct (IH (S n) s2) as (H1 & H2 & H3 & H4 & H5 & H6 & H7); [lia|lia|].
    set (r := pump is_busy round fuel (S n) s2) in *. cbv zeta in H1, H2, H3, H4, H5, H6, H7.
    assert (Hlast : (r.1.2 - n)%nat = S (r.1.2 - S n)) by lia.
    split; [lia|]. split.
    { intros Hnone H40. destruct (decide (n = 40%nat)) as [->|Hne]; [lia|].
      apply H2; [done|lia]. }
    split.
    { intros [|j] Hj; [cbn; by rewrite Nat.add_0_r|].
      rewrite Hp, H3 by lia. f_equal. lia. }
    split.
    { intros [|j] Hlt' H40.
      - cbn [pump snd]. rewrite Nat.add_0_r in H40.
        destruct (Nat.ltb_spec n 40); [lia|]. rewrite orb_false_r in Hor. subst b.
        by exists s1.
      - rewrite Hp. apply H4; lia. }
    split; [intros Hnone; rewrite Hlast, Hp; by apply H5|].
    split; [intros ex Hex; rewrite Hlast, Hp; by apply H6|].
    intros [|f] Hf; [lia|]. rewrite Hp. apply H7. lia.
Qed.

(** X15. The loop of [test_eat_action] completes at most 100 rounds.  An
    exception from [queue.is_busy()] or from the body of a round ends it
    where it is raised, after fewer rounds than 40 if it comes that early;
    a run that ends without one completed at least 40 rounds, stopped
    before round 100 only because the queue reported idle, and in either
    case went on after round 40 only while the queue reported busy.
    Running the model with more fuel than the 101 tests of the condition
    changes nothing: the loop ends by its own condition. *)
Theorem pump_rounds (s : St) :
  let r := pump is_busy round 101 0 s in
  let after (k : nat) := (pump is_busy round k 0 s).2 in
  (r.1.2 ≤ 100)%nat
  ∧ (r.1.1 = None → (40 ≤ r.1.2)%nat)
  ∧ (∀ k, (k ≤ r.1.2)%nat → (pump is_busy round k 0 s).1 = (None, k))
  ∧ (∀ k, (40 ≤ k < r.1.2)%nat → ∃ s1, is_busy (after k) = (inr true, s1))
  ∧ (r.1.1 = None →
     ∃ b, is_busy (after r.1.2) = (inr b, r.2) ∧ ((r.1.2 < 100)%nat → b = false))
  ∧ (∀ ex, r.1.1 = Some ex →
       is_busy (after r.1.2) = (inl ex, r.2)
       ∨ ∃ b s1, is_busy (after r.1.2) = (inr b, s1)
                 ∧ round r.1.2 s1 = (Some ex, r.2))
  ∧ (∀ fuel, (101 ≤ fuel)%nat → pump is_busy round fuel 0 s = r).
Proof.
  intros r after.
  destruct (pump_spec 101 0%nat s) as (H1 & H2 & H3 & H4 & H5 & H6 & H7); [lia|lia|].
  fold r in H1, H2, H3, H4, H5, H6, H7. cbv zeta in H1, H2, H3, H4, H5, H6, H7.
  rewrite Nat.sub_0_r in H3, H5, H6.
  split; [lia|]. split; [intros; apply H2; [done|lia]|]. split; [exact H3|].
  split; [intros k [? ?]; by apply H4|]. split; [exact H5|]. split; [exact H6|].
  intros fuel Hfuel. apply H7. lia.
Qed.

End Pump.

(** Three runs of the loop: an idle queue, a queue that stays busy, and a
    round that raises. *)
Example pump_runs :
  pump (λ s : nat, (inr false, s)) (λ _ s, (None, S s)) 101 0 0%nat
  = (None, 40%nat, 40%nat)
  ∧ pump (λ s : nat, (inr true, s)) (λ _ s, (None, S s)) 101 0 0%nat
    = (None, 100%nat, 100%nat)
  ∧ pump (λ s : nat, (inr true, s))
      (λ n s, if (n =? 2)%nat then (Some (Raised "KeyError"), s) else (None, S s))
      101 0 0%nat
    = (Some (Raised "KeyError"), 2%nat, 2%nat).
Proof. repeat split; vm_compute; reflexivity. Qed.
